(** * Magic_Words: forward reachability of next-token predictions

    A shallow embedding of [magic_words/forward_reach.py] and the
    properties of its reachable-set enumeration.

    The language model and the tokenizer are external collaborators.  They
    enter the development as parameters of a section:
    - [model row] is [model(input_ids).logits[k, -1, :]] for the row [row]
      of [input_ids]: the scores at the last position.  A forward pass over
      a batch is the row-wise image of the batch; the pass itself is
      recorded in the trace of effects;
    - [argmax] and [cross_entropy] are the torch operations on these scores,
      whose floating-point values stay abstract ([Logits], [Loss]);
    - [decode] is [tokenizer.decode], [vocab_size] is
      [tokenizer.vocab_size].

    Python integers are [Z]; a two-dimensional integer tensor is the list of
    its rows; a data frame is the list of its rows.  The failures of the
    module itself are modelled: its assertions, [torch.tensor] on a value
    that is no 64-bit integer, the last position of the scores of a question
    of no token, the division by a chunk size of zero.  Failures inside the
    model or the tokenizer are not, and the rows handed to
    [_get_answer_ids] are taken to hold at least one token, as the prompt
    rows this module builds do. *)

From Stdlib Require Import String ZArith List Bool Lia Sorted.
Import ListNotations.
Local Open Scope Z_scope.

(** ** Python values reaching the code *)

(** An element of a Python list found in a [question_ids] cell. *)
Inductive pyelem : Type :=
| PyInt (z : Z)
| PyStr (s : string).

(** The object stored in a [question_ids] cell of the input data frame. *)
Inductive pyobj : Type :=
| PyList (l : list pyelem)
| PyString (s : string)
| PyTuple (l : list pyelem).

(** [type(x) == list] *)
Definition type_is_list (x : pyobj) : bool :=
  match x with
  | PyList _ => true
  | _ => false
  end.

(** The Python list of the token ids [ids]. *)
Definition token_list (ids : list Z) : list pyelem := map PyInt ids.

(** The integers of a list all of whose elements are integers. *)
Fixpoint as_token_ids (l : list pyelem) : option (list Z) :=
  match l with
  | [] => Some []
  | PyInt z :: l' =>
      match as_token_ids l' with
      | Some ids => Some (z :: ids)
      | None => None
      end
  | PyStr _ :: _ => None
  end.

(** One row of the input data frame [unique_states], with its index label. *)
Record state_row : Type := {
  state_index : Z;
  state_question : string;
  state_question_ids : pyobj
}.

(** ** Failures *)

(** The assertions of the module, by their message, and the failures the
    interpreter or torch raise on the paths modelled here. *)
Inductive error : Type :=
| InvalidInput       (* "Batch dimension of prompt_ids and question_ids must match" *)
| ShapeAssertion     (* "answer_ids has shape ... but should have shape ..." *)
| NotImplemented     (* "`get_reachable_set()` Not implemented with max_prompt_tokens != 1" *)
| TypeAssertion      (* "question_ids must be a list of token ids -- not a string." *)
| ZeroDivisionError  (* [batch / max_parallel] with [max_parallel = 0] *)
| TensorError        (* [torch.tensor] on a list that holds a string, or an
                        integer outside the 64-bit range *)
| IndexError.        (* [base_logits[0, -1, :]] on a question of no token *)

(** ** Integer helpers *)

(** [range(n)] *)
Definition range (n : Z) : list Z := map Z.of_nat (seq 0 (Z.to_nat n)).

(** The integers a tensor of dtype [torch.long] holds. *)
Definition in_int64 (z : Z) : Prop := - 2 ^ 63 <= z < 2 ^ 63.

Definition fits_int64 (z : Z) : bool := (- 2 ^ 63 <=? z) && (z <? 2 ^ 63).

(** The integers a float holds exactly: below this bound the quotient of
    two of them, rounded to a float, has the ceiling of the exact
    quotient. *)
Definition float_exact_bound : Z := 2 ^ 53.

(** [math.ceil(a / b)] for [b <> 0], as the ceiling of the exact quotient.
    The source divides in floating point: the two agree when [b] is
    negative (both are at most 0) and when [a] and [b] are below
    [float_exact_bound], and every theorem on a positive [b] that is not a
    row count itself carries that bound as a hypothesis. *)
Definition ceil_div (a b : Z) : Z := - ((- a) / b).

(** [xs[a:b]] for [0 <= a]. *)
Definition slice {A : Type} (xs : list A) (a b : Z) : list A :=
  firstn (Z.to_nat (b - a)) (skipn (Z.to_nat a) xs).

(** [len(xs)] *)
Definition len {A : Type} (xs : list A) : Z := Z.of_nat (length xs).

(** [t.repeat(n, 1)]: the rows of [t], [n] times over. *)
Definition repeat_rows (t : list (list Z)) (n : nat) : list (list Z) :=
  concat (repeat t n).

(** [torch.cat([a, b], dim=-1)] for two tensors with as many rows. *)
Definition cat_last (a b : list (list Z)) : list (list Z) :=
  map (fun pq => fst pq ++ snd pq) (combine a b).

(** [torch.zeros(n, 1, dtype=torch.long)] *)
Definition zeros (n : Z) : list (list Z) := repeat [0] (Z.to_nat n).

(** ** A small model to run the code on

    Four tokens; the scores of a row put all the weight on the token
    [(sum of the row) mod 3], so that token 3 is never predicted and the
    prompts 0 and 3 predict the same token. *)

Definition stub_vocab_size : Z := 4.

Definition stub_model (input_row : list Z) : list Z :=
  let t := fold_right Z.add 0 input_row mod 3 in
  map (fun v => if v =? t then 1 else 0) (range stub_vocab_size).

(** The first index of the largest score. *)
Fixpoint stub_argmax_from (best besti i : Z) (l : list Z) : Z :=
  match l with
  | [] => besti
  | v :: l' =>
      if best <? v then stub_argmax_from v i (i + 1) l'
      else stub_argmax_from best besti (i + 1) l'
  end.

Definition stub_argmax (l : list Z) : Z :=
  match l with
  | [] => 0
  | v :: l' => stub_argmax_from v 0 1 l'
  end.

(** An integer stand-in for the loss: how far the target's score is from
    the best one. *)
Definition stub_cross_entropy (l : list Z) (target : Z) : Z :=
  fold_right Z.max 0 l - nth (Z.to_nat target) l 0.

Definition stub_decode (ids : list Z) : string :=
  fold_right
    (fun i s => String (Ascii.ascii_of_nat (97 + Z.to_nat i)) s)
    EmptyString ids.

(** A model that predicts token 7 whatever the input. *)
Definition const7_model (input_row : list Z) : Z := 7.

(** Rows of an input data frame: the question [1] as a list of token ids,
    the same question serialized as a string, and a list that holds a
    string. *)
Definition list_row (i : Z) : state_row :=
  {| state_index := i; state_question := "b";
     state_question_ids := PyList (token_list [1]) |}.

Definition serialized_row (i : Z) : state_row :=
  {| state_index := i; state_question := "b";
     state_question_ids := PyString "[1]" |}.

Definition string_list_row (i : Z) : state_row :=
  {| state_index := i; state_question := "q";
     state_question_ids := PyList [PyStr "a"] |}.

Section ForwardReach.

Variables Logits Loss : Type.

(** The external collaborators. *)
Variable model : list Z -> Logits.
Variable argmax : Logits -> Z.
Variable cross_entropy : Logits -> Z -> Loss.
Variable decode : list Z -> string.
Variable vocab_size : Z.

(** ** Effects *)

(** What a run does besides returning: forward passes, metric computations
    and the lines it prints. *)
Inductive event : Type :=
| Forward (input_ids : list (list Z))
| CrossEntropy (logits : Logits) (target : Z)
| PrintFound (i : Z) (answer : string)
| PrintProgress (i n : Z) (question : string).

(** A computation returns the events it caused, in order, and either the
    failure that stopped it or its value. *)
Definition M (A : Type) : Type := (list event * (error + A))%type.

Definition ret {A : Type} (a : A) : M A := ([], inr a).

Definition raise {A : Type} (e : error) : M A := ([], inl e).

Definition emit (ev : event) : M unit := ([ev], inr tt).

Definition bind {A B : Type} (m : M A) (f : A -> M B) : M B :=
  match m with
  | (tr, inl e) => (tr, inl e)
  | (tr, inr a) => (tr ++ fst (f a), snd (f a))
  end.

Notation "x <- m ;; k" := (bind m (fun x => k))
  (at level 61, m at next level, right associativity).
Notation "m ;;; k" := (bind m (fun _ => k))
  (at level 61, right associativity).

(** [assert b, msg] *)
Definition py_assert (b : bool) (e : error) : M unit :=
  if b then ret tt else raise e.

(** [for x in xs: s = body(x, s)] *)
Fixpoint for_each {X S : Type} (xs : list X) (body : X -> S -> M S) (s : S)
  : M S :=
  match xs with
  | [] => ret s
  | x :: xs' => s' <- body x s ;; for_each xs' body s'
  end.

Definition trace {A : Type} (m : M A) : list event := fst m.
Definition outcome {A : Type} (m : M A) : error + A := snd m.

(** [model(input_ids).logits[:, -1, :]]: one forward pass over a batch. *)
Definition forward (input_ids : list (list Z)) : M (list Logits) :=
  emit (Forward input_ids) ;;; ret (map model input_ids).

(** The same for a batch of one row, returning the scores of that row. *)
Definition forward_row (input_row : list Z) : M Logits :=
  emit (Forward [input_row]) ;;; ret (model input_row).

(** [torch.nn.functional.cross_entropy(logits, torch.tensor([target])).item()] *)
Definition loss (logits : Logits) (target : Z) : M Loss :=
  emit (CrossEntropy logits target) ;;; ret (cross_entropy logits target).

(** [torch.tensor(ids)] on integers: it raises on one that does not fit 64
    bits. *)
Definition int64_tensor (ids : list Z) : M (list Z) :=
  if forallb fits_int64 ids then ret ids else raise TensorError.

(** [torch.tensor(x_0)] on a Python list. *)
Definition torch_tensor (x_0 : list pyelem) : M (list Z) :=
  match as_token_ids x_0 with
  | Some ids => int64_tensor ids
  | None => raise TensorError
  end.

(** [logits[0, -1, :]] of the scores of a row: there is no last position
    when the row has no token. *)
Definition last_position (input_row : list Z) : M unit :=
  py_assert (negb (len input_row =? 0)) IndexError.

(** ** [_get_prompt_ids_brute_force] *)

Definition _get_prompt_ids_brute_force : M (list (list Z)) :=
  ids <- int64_tensor (range vocab_size) ;;
  ret (map (fun i => [i]) ids).

(** ** [_get_answer_ids] *)

Definition _get_answer_ids (prompt_ids question_ids : list (list Z))
  : M (list (list Z)) :=
  let question_ids :=
    if (len question_ids =? 1) && (len prompt_ids >? 1)
    then repeat_rows question_ids (length prompt_ids)
    else question_ids in
  py_assert (len prompt_ids =? len question_ids) InvalidInput ;;;
  let input_ids := cat_last prompt_ids question_ids in
  logits <- forward input_ids ;;
  let answer_ids := map (fun l => [argmax l]) logits in
  py_assert (len answer_ids =? len prompt_ids) ShapeAssertion ;;;
  ret answer_ids.

(** ** [_batch_get_answer_ids] *)

(** [answer_ids[a:b] = new], the rows of [new] being as many as the slice
    has. *)
Definition set_slice (answer_ids : list (list Z)) (a b : Z)
    (new : list (list Z)) : M (list (list Z)) :=
  py_assert (len new =? len (slice answer_ids a b)) ShapeAssertion ;;;
  ret (firstn (Z.to_nat a) answer_ids ++ new ++ skipn (Z.to_nat b) answer_ids).

Definition default_max_parallel : Z := 300.

(** The body of the loop over the chunks, [batch] being the number of
    prompt rows. *)
Definition batch_step (prompt_ids question_ids : list (list Z))
    (max_parallel batch : Z) (i : Z) (answer_ids : list (list Z))
  : M (list (list Z)) :=
  let batch_start := i * max_parallel in
  let batch_end := Z.min ((i + 1) * max_parallel) batch in
  let prompt_ids_batch := slice prompt_ids batch_start batch_end in
  answer_ids_batch <- _get_answer_ids prompt_ids_batch question_ids ;;
  set_slice answer_ids batch_start batch_end answer_ids_batch.

Definition _batch_get_answer_ids (prompt_ids question_ids : list (list Z))
    (max_parallel : option Z) : M (list (list Z)) :=
  let max_parallel :=
    match max_parallel with Some m => m | None => default_max_parallel end in
  let batch := len prompt_ids in
  py_assert (negb (max_parallel =? 0)) ZeroDivisionError ;;;
  let num_batches := ceil_div batch max_parallel in
  let answer_ids := zeros batch in
  for_each (range num_batches)
    (batch_step prompt_ids question_ids max_parallel batch)
    answer_ids.

(** ** [get_reachable_set] *)

(** A row of the result table. *)
Record row : Type := {
  question : string;
  question_ids : list Z;
  answer : string;
  answer_ids : Z;
  base_loss : Loss;
  search_method : string;
  prompt_length : Z;
  prompted_loss : Loss;
  base_correct : bool;
  prompt_correct : bool;
  question_length : Z
}.

Definition DataFrame : Type := list row.

(** [reachable_df['answer_ids'].tolist()] *)
Definition answer_ids_column (df : DataFrame) : list Z := map answer_ids df.

(** [a in l] *)
Definition py_in (a : Z) (l : list Z) : bool := existsb (Z.eqb a) l.

Definition default_max_prompt_tokens : Z := 10.

(** The body of the loop over the candidate prompts: [x_0] is the question
    tensor, [base_logits] the scores of the question alone. *)
Definition reach_step (x_0 : list Z) (question : string)
    (base_logits : Logits) (base_answer_ids : Z)
    (i : Z) (reachable_df : DataFrame) : M DataFrame :=
  prompt_ids <- int64_tensor [i] ;;
  let input_ids := prompt_ids ++ x_0 in
  logits <- forward_row input_ids ;;
  let answer_ids := argmax logits in
  let answer := decode [answer_ids] in
  if py_in answer_ids (answer_ids_column reachable_df)
  then ret reachable_df
  else
    emit (PrintFound i answer) ;;;
    base_loss <- loss base_logits answer_ids ;;
    prompted_loss <- loss logits answer_ids ;;
    let base_correct := base_answer_ids =? answer_ids in
    let prompt_correct := true in
    let question_length := len x_0 in
    let new_row :=
      {| question := question;
         question_ids := x_0;
         answer := answer;
         answer_ids := answer_ids;
         base_loss := base_loss;
         search_method := "forward";
         prompt_length := 1;
         prompted_loss := prompted_loss;
         base_correct := base_correct;
         prompt_correct := prompt_correct;
         question_length := question_length |} in
    if len reachable_df =? 0
    then ret [new_row]
    else ret (reachable_df ++ [new_row]).

Definition get_reachable_set (x_0 : list pyelem)
    (max_prompt_tokens : option Z) : M DataFrame :=
  let max_prompt_tokens :=
    match max_prompt_tokens with
    | Some m => m
    | None => default_max_prompt_tokens
    end in
  py_assert (max_prompt_tokens =? 1) NotImplemented ;;;
  let reachable_df : DataFrame := [] in
  x_0 <- torch_tensor x_0 ;;
  base_logits <- forward_row x_0 ;;
  last_position x_0 ;;;
  let base_answer_ids := argmax base_logits in
  let question := decode x_0 in
  for_each (range vocab_size)
    (reach_step x_0 question base_logits base_answer_ids)
    reachable_df.

(** ** [forward_generate] *)

(** The body of the loop over the rows of [unique_states], [n] being
    [len(unique_states)].  The match is [assert type(x_0) == list]. *)
Definition generate_step (n : Z) (max_prompt_tokens : option Z)
    (r : state_row) (reachable_df : DataFrame) : M DataFrame :=
  match state_question_ids r with
  | PyList x_0 =>
      emit (PrintProgress (state_index r + 1) n (state_question r)) ;;;
      new_reachable_set <- get_reachable_set x_0 max_prompt_tokens ;;
      ret (reachable_df ++ new_reachable_set)
  | _ => raise TypeAssertion
  end.

Definition forward_generate (unique_states : list state_row)
    (max_prompt_tokens : option Z) : M DataFrame :=
  let reachable_df : DataFrame := [] in
  for_each unique_states
    (generate_step (len unique_states) max_prompt_tokens)
    reachable_df.

(** ** Notions the properties are stated with *)

(** The model's top-1 prediction for the question [x_0] under the one-token
    prompt [i]. *)
Definition prediction (x_0 : list Z) (i : Z) : Z := argmax (model ([i] ++ x_0)).

(** The model's top-1 prediction for the question alone. *)
Definition base_prediction (x_0 : list Z) : Z := argmax (model x_0).

(** [a] is predicted under some one-token prompt of the vocabulary. *)
Definition achievable (x_0 : list Z) (a : Z) : Prop :=
  exists i, 0 <= i < vocab_size /\ prediction x_0 i = a.

(** The first of the candidates [cs] that predicts [a], if any does. *)
Definition first_among (x_0 : list Z) (cs : list Z) (a : Z) : option Z :=
  find (fun i => prediction x_0 i =? a) cs.

(** The smallest candidate prompt of the vocabulary that predicts [a]. *)
Definition first_candidate (x_0 : list Z) (a : Z) : option Z :=
  first_among x_0 (range vocab_size) a.

(** The number of rows of a table whose answer is [a]. *)
Definition count_answer (a : Z) (df : DataFrame) : nat :=
  List.length (filter (fun r => answer_ids r =? a) df).

(** The events of a trace that are forward passes, respectively metric
    computations. *)
Definition is_forward (ev : event) : bool :=
  match ev with Forward _ => true | _ => false end.

Definition is_metric (ev : event) : bool :=
  match ev with CrossEntropy _ _ => true | _ => false end.

(** One prediction per prompt row, each against the question row [q]. *)
Definition answers_against (q : list Z) (prompt_ids : list (list Z))
  : list (list Z) :=
  map (fun p => [argmax (model (p ++ q))]) prompt_ids.

(** One prediction per matched pair of a prompt row and a question row. *)
Definition answers_matched (prompt_ids question_ids : list (list Z))
  : list (list Z) :=
  map (fun pq => [argmax (model (fst pq ++ snd pq))])
      (combine prompt_ids question_ids).

(** The row the candidate prompt [i] adds to the table when its answer is
    new: the [new_row] of the source. *)
Definition discovered_row (x_0 : list Z) (i : Z) : row :=
  let logits := model ([i] ++ x_0) in
  let base_logits := model x_0 in
  let answer_ids := argmax logits in
  {| question := decode x_0;
     question_ids := x_0;
     answer := decode [answer_ids];
     answer_ids := answer_ids;
     base_loss := cross_entropy base_logits answer_ids;
     search_method := "forward";
     prompt_length := 1;
     prompted_loss := cross_entropy logits answer_ids;
     base_correct := argmax base_logits =? answer_ids;
     prompt_correct := true;
     question_length := len x_0 |}.

(** The events of a round of the loop that adds a row. *)
Definition discovery_events (x_0 : list Z) (i : Z) : list event :=
  let logits := model ([i] ++ x_0) in
  let answer_ids := argmax logits in
  [Forward [[i] ++ x_0];
   PrintFound i (decode [answer_ids]);
   CrossEntropy (model x_0) answer_ids;
   CrossEntropy logits answer_ids].

(** What holds of the table [df] and of the events [tr] of the loop once
    the candidates [done] are through. *)
Definition table_invariant (x_0 : list Z) (done : list Z) (tr : list event)
    (df : DataFrame) : Prop :=
  NoDup (answer_ids_column df)
  /\ (forall a, In a (answer_ids_column df) <->
                exists i, In i done /\ prediction x_0 i = a)
  /\ (exists idxs,
        map (fun r => first_among x_0 done (answer_ids r)) df = map Some idxs
        /\ StronglySorted Z.lt idxs)
  /\ Forall (fun r => exists i, In i done /\ r = discovered_row x_0 i) df
  /\ List.length (filter is_forward tr) = List.length done
  /\ List.length (filter is_metric tr) = (2 * List.length df)%nat.

(** The forward passes of a run over the chunks [cs] against the question
    row [q]. *)
Definition chunk_events (q : list Z) (cs : list (list (list Z)))
  : list event :=
  map (fun c => Forward (map (fun p => p ++ q) c)) cs.

(** What holds of the output buffer and of the events of the chunked run
    once the chunks numbered [done] are through: the first [k] rows are
    answered, the others still zero, and the prompts answered were passed
    in chunks of at most [max_parallel] rows. *)
Definition batch_invariant (prompt_ids : list (list Z)) (q : list Z)
    (max_parallel : Z) (done : list Z) (tr : list event)
    (answer_ids : list (list Z)) : Prop :=
  let k := Z.to_nat (Z.min (len done * max_parallel) (len prompt_ids)) in
  answer_ids
  = answers_against q (firstn k prompt_ids)
    ++ repeat [0] (List.length prompt_ids - k)
  /\ exists cs,
      concat cs = firstn k prompt_ids
      /\ Forall (fun c => 0 < len c <= max_parallel) cs
      /\ tr = chunk_events q cs.

(** The candidates of [cs], in their order, whose prediction is neither in
    [seen] nor the prediction of an earlier candidate of [cs]. *)
Fixpoint fresh_candidates (x_0 : list Z) (seen cs : list Z) : list Z :=
  match cs with
  | [] => []
  | c :: cs' =>
      if py_in (prediction x_0 c) seen
      then fresh_candidates x_0 seen cs'
      else c :: fresh_candidates x_0 (seen ++ [prediction x_0 c]) cs'
  end.

(** The events of the loop of the search over the candidates [cs], the
    answers [seen] being in the table. *)
Fixpoint search_events (x_0 : list Z) (seen cs : list Z) : list event :=
  match cs with
  | [] => []
  | c :: cs' =>
      if py_in (prediction x_0 c) seen
      then Forward [[c] ++ x_0] :: search_events x_0 seen cs'
      else discovery_events x_0 c
           ++ search_events x_0 (seen ++ [prediction x_0 c]) cs'
  end.

(** The elements of [l], in their order, that are neither in [seen] nor
    earlier in [l]. *)
Fixpoint first_occurrences (seen l : list Z) : list Z :=
  match l with
  | [] => []
  | a :: l' =>
      if py_in a seen then first_occurrences seen l'
      else a :: first_occurrences (seen ++ [a]) l'
  end.

(** The events of a trace that print a new answer, respectively the
    progress of the driver. *)
Definition is_found (ev : event) : bool :=
  match ev with PrintFound _ _ => true | _ => false end.

Definition is_progress (ev : event) : bool :=
  match ev with PrintProgress _ _ _ => true | _ => false end.


(** The token ids of the [question_ids] cell of a row that holds a list of
    integers. *)
Definition row_token_ids (r : state_row) : list Z :=
  match state_question_ids r with
  | PyList l =>
      match as_token_ids l with
      | Some ids => ids
      | None => []
      end
  | _ => []
  end.

(** The [question_ids] cell of the row is a list of token ids. *)
Definition holds_token_ids (r : state_row) : Prop :=
  state_question_ids r = PyList (token_list (row_token_ids r)).

(** The [question_ids] cell of the row is a question the search accepts: a
    list of at least one token id, the ids of 64 bits. *)
Definition holds_question (r : state_row) : Prop :=
  holds_token_ids r
  /\ row_token_ids r <> []
  /\ Forall in_int64 (row_token_ids r).

(** The events of the driver on one row of a collection of [n] rows, and
    the table of the row. *)
Definition row_events (n : Z) (r : state_row) : list event :=
  PrintProgress (state_index r + 1) n (state_question r)
  :: Forward [row_token_ids r]
  :: search_events (row_token_ids r) [] (range vocab_size).

Definition row_table (r : state_row) : DataFrame :=
  map (discovered_row (row_token_ids r))
      (fresh_candidates (row_token_ids r) [] (range vocab_size)).

(** ** The monad *)

Lemma bind_ok {A B : Type} (tr : list event) (a : A) (f : A -> M B) :
  bind (tr, inr a) f = (tr ++ fst (f a), snd (f a)).
Proof. reflexivity. Qed.

Lemma bind_fail {A B : Type} (tr : list event) (e : error) (f : A -> M B) :
  bind (tr, inl e) f = (tr, inl e).
Proof. reflexivity. Qed.

Lemma bind_ret_l {A B : Type} (a : A) (f : A -> M B) : bind (ret a) f = f a.
Proof. unfold bind, ret. simpl. now destruct (f a). Qed.

(** A loop whose body keeps an invariant of the items done so far, the
    events so far and the state, and never fails, ends with the invariant
    on all the items. *)
Lemma for_each_invariant {X S : Type} (body : X -> S -> M S)
    (I : list X -> list event -> S -> Prop) (all : list X) :
  (forall done x rest tr s,
      all = done ++ x :: rest -> I done tr s ->
      exists tr' s', body x s = (tr', inr s') /\ I (done ++ [x]) (tr ++ tr') s') ->
  forall s, I [] [] s ->
  exists tr s', for_each all body s = (tr, inr s') /\ I all tr s'.
Proof.
  intros Hstep s Hinit.
  assert (Hgen : forall todo done tr0 s0,
             all = done ++ todo -> I done tr0 s0 ->
             exists tr' s', for_each todo body s0 = (tr', inr s')
                            /\ I all (tr0 ++ tr') s').
  { induction todo as [|x todo IH]; intros done tr0 s0 Hall Hinv.
    - exists [], s0. split; [reflexivity|].
      rewrite !app_nil_r in *. now subst all.
    - destruct (Hstep done x todo tr0 s0 Hall Hinv) as (tr1 & s1 & Hb & Hinv1).
      destruct (IH (done ++ [x]) (tr0 ++ tr1) s1) as (tr2 & s2 & Hl & Hinv2).
      + now rewrite <- app_assoc.
      + exact Hinv1.
      + exists (tr1 ++ tr2), s2. split.
        * simpl. rewrite Hb, bind_ok, Hl. reflexivity.
        * now rewrite app_assoc. }
  destruct (Hgen all [] [] s eq_refl Hinit) as (tr & s' & H1 & H2).
  now exists tr, s'.
Qed.

(** ** [range] *)

Lemma range_In (n i : Z) : In i (range n) <-> 0 <= i < n.
Proof.
  unfold range. rewrite in_map_iff. split.
  - intros (k & <- & Hk). apply in_seq in Hk. lia.
  - intros H. exists (Z.to_nat i). split; [lia|]. apply in_seq. lia.
Qed.

Lemma range_sorted (n : Z) : StronglySorted Z.lt (range n).
Proof.
  unfold range. generalize (Z.to_nat n) as k. generalize 0%nat as a.
  intros a k. revert a. induction k as [|k IH]; intros a; simpl.
  - constructor.
  - constructor; [apply IH|].
    apply Forall_forall. intros z Hz. apply in_map_iff in Hz.
    destruct Hz as (j & <- & Hj). apply in_seq in Hj. lia.
Qed.

Lemma range_split (n : Z) (done rest : list Z) (x : Z) :
  range n = done ++ x :: rest -> x = len done /\ 0 <= x < n.
Proof.
  intros H. split.
  - unfold range in H.
    assert (Hn : nth (List.length done) (map Z.of_nat (seq 0 (Z.to_nat n))) 0 = x).
    { rewrite H, app_nth2, Nat.sub_diag; [reflexivity|lia]. }
    assert (Hlen : (List.length done < Z.to_nat n)%nat).
    { apply (f_equal (@List.length Z)) in H.
      rewrite length_map, length_seq, length_app in H. simpl in H. lia. }
    rewrite <- Hn. change 0 with (Z.of_nat 0). rewrite map_nth, seq_nth by lia.
    reflexivity.
  - apply range_In. rewrite H. apply in_or_app. right. now left.
Qed.

Lemma sorted_prefix_lt (done rest : list Z) (x : Z) :
  StronglySorted Z.lt (done ++ x :: rest) -> forall i, In i done -> i < x.
Proof.
  induction done as [|d done IH]; intros Hs i Hi; [contradiction|].
  simpl in Hs. inversion Hs as [|? ? Hs' Hall]; subst.
  destruct Hi as [<-|Hi].
  - rewrite Forall_forall in Hall. apply Hall, in_or_app. right. now left.
  - now apply IH.
Qed.

(** ** Lists *)

Lemma find_app_found {A : Type} (f : A -> bool) (l l' : list A) (x : A) :
  find f l = Some x -> find f (l ++ l') = Some x.
Proof.
  induction l as [|a l IH]; simpl; [discriminate|].
  destruct (f a); [trivial|exact IH].
Qed.

Lemma find_app_missing {A : Type} (f : A -> bool) (l l' : list A) :
  find f l = None -> find f (l ++ l') = find f l'.
Proof.
  induction l as [|a l IH]; simpl; [trivial|].
  destruct (f a); [discriminate|exact IH].
Qed.

Lemma sorted_snoc (l : list Z) (x : Z) :
  StronglySorted Z.lt l -> (forall i, In i l -> i < x) ->
  StronglySorted Z.lt (l ++ [x]).
Proof.
  induction 1 as [|a l Hs IH Hall]; intros Hlt; simpl.
  - repeat constructor.
  - constructor.
    + apply IH. intros i Hi. apply Hlt. now right.
    + apply Forall_app. split; [exact Hall|].
      constructor; [|constructor]. apply Hlt. now left.
Qed.

Lemma as_token_ids_token_list (ids : list Z) :
  as_token_ids (token_list ids) = Some ids.
Proof.
  unfold token_list.
  induction ids as [|z ids IH]; simpl; [reflexivity|]. now rewrite IH.
Qed.

Lemma py_in_In (a : Z) (l : list Z) : py_in a l = true <-> In a l.
Proof.
  unfold py_in. rewrite existsb_exists. split.
  - intros (x & Hx & He). apply Z.eqb_eq in He. now subst.
  - intros H. exists a. split; [assumption|apply Z.eqb_refl].
Qed.

(** ** Tensors of 64-bit integers *)

Lemma fits_int64_iff (z : Z) : fits_int64 z = true <-> in_int64 z.
Proof.
  unfold fits_int64, in_int64. rewrite andb_true_iff, Z.leb_le, Z.ltb_lt.
  reflexivity.
Qed.

Lemma int64_tensor_ok (ids : list Z) :
  Forall in_int64 ids -> int64_tensor ids = ret ids.
Proof.
  intros H. unfold int64_tensor.
  assert (E : forallb fits_int64 ids = true).
  { apply forallb_forall. rewrite Forall_forall in H. intros z Hz.
    apply fits_int64_iff. now apply H. }
  now rewrite E.
Qed.

Lemma int64_tensor_overflow (ids : list Z) :
  ~ Forall in_int64 ids -> int64_tensor ids = raise TensorError.
Proof.
  intros H. unfold int64_tensor.
  destruct (forallb fits_int64 ids) eqn:E; [|reflexivity].
  exfalso. apply H. apply Forall_forall. intros z Hz.
  apply fits_int64_iff. rewrite forallb_forall in E. now apply E.
Qed.

(** The candidates of a vocabulary of at most 2^63 tokens fit 64 bits. *)
Lemma range_in_int64 (n i : Z) : n <= 2 ^ 63 -> In i (range n) -> in_int64 i.
Proof.
  intros Hn Hi. apply range_In in Hi. unfold in_int64. lia.
Qed.

(** ** One round of the search *)

(** A candidate whose answer is in the table costs its forward pass and
    nothing else; the table stays. *)
Lemma reach_step_seen (x_0 : list Z) (q : string) (base_logits : Logits)
    (base_answer_ids : Z) (i : Z) (df : DataFrame) :
  in_int64 i ->
  In (prediction x_0 i) (answer_ids_column df) ->
  reach_step x_0 q base_logits base_answer_ids i df
  = ([Forward [[i] ++ x_0]], inr df).
Proof.
  intros Hi Hin. apply py_in_In in Hin. unfold prediction in Hin.
  unfold reach_step. rewrite int64_tensor_ok, bind_ret_l by (now constructor).
  unfold forward_row, emit, ret, bind. simpl in *.
  rewrite Hin. reflexivity.
Qed.

(** A candidate whose answer is new adds its row at the end. *)
Lemma reach_step_new (x_0 : list Z) (i : Z) (df : DataFrame) :
  in_int64 i ->
  ~ In (prediction x_0 i) (answer_ids_column df) ->
  reach_step x_0 (decode x_0) (model x_0) (argmax (model x_0)) i df
  = (discovery_events x_0 i, inr (df ++ [discovered_row x_0 i])).
Proof.
  intros Hi Hnin. rewrite <- py_in_In in Hnin. unfold prediction in Hnin.
  apply not_true_is_false in Hnin.
  unfold reach_step. rewrite int64_tensor_ok, bind_ret_l by (now constructor).
  unfold forward_row, loss, emit, ret, bind. simpl in *.
  rewrite Hnin. simpl.
  destruct df as [|r df]; reflexivity.
Qed.

(** A round fails in the conversion of its candidate only, before its
    forward pass. *)
Lemma reach_step_errors (x_0 : list Z) (q : string) (base_logits : Logits)
    (base_answer_ids : Z) (i : Z) (df : DataFrame) (e : error) :
  outcome (reach_step x_0 q base_logits base_answer_ids i df) = inl e ->
  e = TensorError.
Proof.
  unfold reach_step, int64_tensor.
  destruct (forallb fits_int64 [i]); [|now intros [= <-]].
  rewrite bind_ret_l.
  unfold forward_row, loss, emit, ret, bind, outcome. simpl.
  destruct (py_in _ _); simpl; [discriminate|].
  destruct (len df =? 0); simpl; discriminate.
Qed.

(** A loop fails with the failure of one of its rounds. *)
Lemma for_each_errors {X S : Type} (body : X -> S -> M S) (xs : list X)
    (s : S) (e : error) :
  outcome (for_each xs body s) = inl e ->
  exists x s', In x xs /\ outcome (body x s') = inl e.
Proof.
  revert s. induction xs as [|x xs IH]; intros s; [discriminate|].
  cbn [for_each]. destruct (body x s) as (tr & [e'|s']) eqn:Hb.
  - intros H. unfold outcome in H. simpl in H. injection H as ->.
    exists x, s. split; [now left|]. now rewrite Hb.
  - rewrite bind_ok. unfold outcome. cbn [snd]. intros H.
    destruct (IH s' H) as (y & s'' & Hy & He).
    exists y, s''. split; [now right|exact He].
Qed.

Lemma table_invariant_step (x_0 : list Z) (done rest : list Z) (x : Z)
    (tr : list event) (df : DataFrame) :
  in_int64 x ->
  StronglySorted Z.lt (done ++ x :: rest) ->
  table_invariant x_0 done tr df ->
  exists tr' df',
    reach_step x_0 (decode x_0) (model x_0) (argmax (model x_0)) x df
    = (tr', inr df')
    /\ table_invariant x_0 (done ++ [x]) (tr ++ tr') df'.
Proof.
  intros Hx64 Hsorted (Hnd & Hin & (idxs & Hidx & Hsort) & Hrows & Hfw & Hmet).
  assert (Hkeep : forall r, In r df ->
            first_among x_0 (done ++ [x]) (answer_ids r)
            = first_among x_0 done (answer_ids r)).
  { intros r Hr.
    assert (Hs : In (first_among x_0 done (answer_ids r)) (map Some idxs)).
    { rewrite <- Hidx.
      now apply (in_map (fun r => first_among x_0 done (answer_ids r))). }
    apply in_map_iff in Hs. destruct Hs as (j & Hj & _).
    rewrite <- Hj. apply find_app_found. now symmetry. }
  destruct (in_dec Z.eq_dec (prediction x_0 x) (answer_ids_column df))
    as [Hseen | Hnew].
  - exists [Forward [[x] ++ x_0]], df. split; [now apply reach_step_seen|].
    repeat split.
    + exact Hnd.
    + intros Ha. apply Hin in Ha. destruct Ha as (i & Hi & Hp).
      exists i. split; [apply in_or_app; now left|exact Hp].
    + intros (i & Hi & Hp). apply in_app_or in Hi. destruct Hi as [Hi|[<-|[]]].
      * apply Hin. now exists i.
      * now rewrite <- Hp.
    + exists idxs. split; [|exact Hsort].
      rewrite <- Hidx. now apply map_ext_in.
    + eapply Forall_impl; [|exact Hrows]. intros r (i & Hi & Hr).
      exists i. split; [apply in_or_app; now left|exact Hr].
    + rewrite filter_app, !length_app. simpl. lia.
    + rewrite filter_app, length_app. simpl. lia.
  - exists (discovery_events x_0 x), (df ++ [discovered_row x_0 x]).
    split; [now apply reach_step_new|].
    assert (Hnone : first_among x_0 done (prediction x_0 x) = None).
    { unfold first_among.
      destruct (find _ done) as [j|] eqn:Hf; [|reflexivity].
      apply find_some in Hf. destruct Hf as (Hj & He). apply Z.eqb_eq in He.
      exfalso. apply Hnew, Hin. now exists j. }
    unfold table_invariant, answer_ids_column in *.
    rewrite map_app. cbn [map].
    change (answer_ids (discovered_row x_0 x)) with (prediction x_0 x).
    repeat split.
    + apply NoDup_app; [exact Hnd|repeat constructor; intros []|].
      intros a Ha [<-|[]]. now apply Hnew.
    + intros Ha. apply in_app_or in Ha. destruct Ha as [Ha|[<-|[]]].
      * apply Hin in Ha. destruct Ha as (i & Hi & Hp).
        exists i. split; [apply in_or_app; now left|exact Hp].
      * exists x. split; [apply in_or_app; right; now left|reflexivity].
    + intros (i & Hi & Hp). apply in_or_app.
      apply in_app_or in Hi. destruct Hi as [Hi|[<-|[]]].
      * left. apply Hin. now exists i.
      * right. now left.
    + exists (idxs ++ [x]). split.
      * rewrite !map_app. cbn [map]. f_equal.
        -- rewrite <- Hidx. now apply map_ext_in.
        -- change (answer_ids (discovered_row x_0 x)) with (prediction x_0 x).
           unfold first_among in *.
           rewrite find_app_missing by exact Hnone.
           simpl. now rewrite Z.eqb_refl.
      * apply sorted_snoc; [exact Hsort|]. intros j Hj.
        apply (sorted_prefix_lt done rest x Hsorted).
        assert (Hs : In (Some j)
                  (map (fun r => first_among x_0 done (answer_ids r)) df)).
        { rewrite Hidx. now apply in_map. }
        apply in_map_iff in Hs. destruct Hs as (r & Hr & _).
        apply find_some in Hr. apply Hr.
    + apply Forall_app. split.
      * eapply Forall_impl; [|exact Hrows]. intros r (i & Hi & Hr).
        exists i. split; [apply in_or_app; now left|exact Hr].
      * constructor; [|constructor]. exists x.
        split; [apply in_or_app; right; now left|reflexivity].
    + rewrite filter_app, !length_app. simpl. lia.
    + rewrite filter_app, !length_app. simpl. lia.
Qed.

(** The search on a question of at least one token, all of 64 bits: the
    forward pass on the question, then the loop over the candidates. *)
Lemma get_reachable_set_unfold (x_0 : list Z) :
  x_0 <> [] -> Forall in_int64 x_0 ->
  get_reachable_set (token_list x_0) (Some 1)
  = (Forward [x_0]
     :: fst (for_each (range vocab_size)
               (reach_step x_0 (decode x_0) (model x_0) (argmax (model x_0)))
               []),
     snd (for_each (range vocab_size)
            (reach_step x_0 (decode x_0) (model x_0) (argmax (model x_0)))
            [])).
Proof.
  intros Hne H64. unfold get_reachable_set, torch_tensor.
  rewrite as_token_ids_token_list, int64_tensor_ok by exact H64.
  change (py_assert (1 =? 1) NotImplemented) with (ret tt).
  rewrite !bind_ret_l.
  assert (E : negb (len x_0 =? 0) = true).
  { destruct x_0; [contradiction|reflexivity]. }
  unfold last_position. rewrite E.
  unfold py_assert, forward_row, emit, ret. rewrite !bind_ok.
  cbn [fst snd app]. reflexivity.
Qed.

(** The search on such a question succeeds when the vocabulary has at most
    2^63 tokens, and its table and events satisfy the invariant for the
    whole vocabulary; the events start with the forward pass on the
    question alone. *)
Lemma get_reachable_set_run (x_0 : list Z) :
  x_0 <> [] -> Forall in_int64 x_0 -> vocab_size <= 2 ^ 63 ->
  exists tr table,
    get_reachable_set (token_list x_0) (Some 1)
    = (Forward [x_0] :: tr, inr table)
    /\ table_invariant x_0 (range vocab_size) tr table.
Proof.
  intros Hne H64 Hvocab.
  destruct (for_each_invariant
              (reach_step x_0 (decode x_0) (model x_0) (argmax (model x_0)))
              (table_invariant x_0) (range vocab_size)) with (s := @nil row)
    as (tr & table & Hrun & Hinv).
  - intros done x rest tr s Hall Hi.
    apply (table_invariant_step x_0 done rest x tr s); [| |exact Hi].
    + apply (range_in_int64 vocab_size); [exact Hvocab|].
      rewrite Hall. apply in_or_app. right. now left.
    + rewrite <- Hall. apply range_sorted.
  - repeat split; simpl; try constructor; try contradiction.
    + intros (i & [] & _).
    + exists []. split; [reflexivity|constructor].
  - exists tr, table. split; [|exact Hinv].
    rewrite get_reachable_set_unfold by assumption. now rewrite Hrun.
Qed.

(** ** Counting rows *)

Lemma count_answer_absent (a : Z) (df : DataFrame) :
  ~ In a (answer_ids_column df) -> count_answer a df = 0%nat.
Proof.
  unfold count_answer, answer_ids_column.
  induction df as [|r df IH]; simpl; intros Hn; [reflexivity|].
  destruct (answer_ids r =? a) eqn:E.
  - apply Z.eqb_eq in E. exfalso. apply Hn. now left.
  - apply IH. intros H. apply Hn. now right.
Qed.

Lemma count_answer_once (a : Z) (df : DataFrame) :
  NoDup (answer_ids_column df) -> In a (answer_ids_column df) ->
  count_answer a df = 1%nat.
Proof.
  unfold answer_ids_column.
  induction df as [|r df IH]; simpl; intros Hnd Hin; [contradiction|].
  inversion Hnd as [|? ? Hnotin Hnd']; subst.
  unfold count_answer. simpl. destruct (answer_ids r =? a) eqn:E.
  - apply Z.eqb_eq in E. subst a. simpl. f_equal.
    now apply count_answer_absent.
  - apply Z.eqb_neq in E. destruct Hin as [Hin|Hin]; [contradiction|].
    now apply IH.
Qed.

Lemma achievable_range (x_0 : list Z) (a : Z) :
  achievable x_0 a <->
  exists i, In i (range vocab_size) /\ prediction x_0 i = a.
Proof.
  unfold achievable. split; intros (i & Hi & Hp); exists i; split; trivial;
    now apply range_In.
Qed.

Lemma singleton_of_length_one {A : Type} (l : list A) :
  List.length l = 1%nat -> exists x, l = [x].
Proof.
  destruct l as [|x [|y l]]; simpl; try discriminate. intros _. now exists x.
Qed.

(** ** The reachable set of one question *)

(** The search fails on a question of no token, after its forward pass on
    the question: the scores have no last position. *)
Lemma get_reachable_set_empty_question :
  get_reachable_set [] (Some 1) = ([Forward [[]]], inl IndexError).
Proof. reflexivity. Qed.

(** The search fails before any forward pass on a question one of whose
    ids does not fit 64 bits. *)
Lemma get_reachable_set_overflow (x_0 : list Z) :
  ~ Forall in_int64 x_0 ->
  get_reachable_set (token_list x_0) (Some 1) = ([], inl TensorError).
Proof.
  intros H. unfold get_reachable_set, torch_tensor.
  rewrite as_token_ids_token_list, int64_tensor_overflow by exact H.
  reflexivity.
Qed.

(** C1. With [max_prompt_tokens = 1] the search on a question, a sequence
    of at least one token id of 64 bits, over a vocabulary of at most 2^63
    tokens, returns a table with exactly one row for every token id that is
    the model's top-1 prediction under some one-token prompt [i] in
    [0, vocab_size)], and no row for any other token id. *)
Theorem reachable_set_exact (x_0 : list Z) :
  x_0 <> [] -> Forall in_int64 x_0 -> vocab_size <= 2 ^ 63 ->
  exists tr table,
    get_reachable_set (token_list x_0) (Some 1) = (tr, inr table)
    /\ forall a,
         (achievable x_0 a -> count_answer a table = 1%nat)
         /\ (~ achievable x_0 a -> count_answer a table = 0%nat).
Proof.
  intros Hne H64 Hvocab.
  destruct (get_reachable_set_run x_0 Hne H64 Hvocab)
    as (tr & table & Hrun & Hinv).
  destruct Hinv as (Hnd & Hin & _).
  exists (Forward [x_0] :: tr), table. split; [exact Hrun|].
  intros a. rewrite achievable_range, <- Hin. split.
  - now apply count_answer_once.
  - now apply count_answer_absent.
Qed.

(** C2. The answer ids of the rows of a reachable-set table are pairwise
    distinct.  A candidate whose prediction is in the table already leaves
    the table as it is and causes its forward pass only: over the whole
    search there are two metric computations per row of the table, and one
    forward pass per candidate besides the one on the question alone.  The
    question has at least one token id, its ids and the candidates are of
    64 bits. *)
Theorem reachable_set_answers_distinct (x_0 : list Z) :
  x_0 <> [] -> Forall in_int64 x_0 -> vocab_size <= 2 ^ 63 ->
  exists tr table,
    get_reachable_set (token_list x_0) (Some 1) = (tr, inr table)
    /\ NoDup (answer_ids_column table)
    /\ (forall q base_logits base_answer_ids i df,
          in_int64 i ->
          In (prediction x_0 i) (answer_ids_column df) ->
          reach_step x_0 q base_logits base_answer_ids i df
          = ([Forward [[i] ++ x_0]], inr df))
    /\ List.length (filter is_metric tr) = (2 * List.length table)%nat
    /\ List.length (filter is_forward tr)
       = S (List.length (range vocab_size)).
Proof.
  intros Hne H64 Hvocab.
  destruct (get_reachable_set_run x_0 Hne H64 Hvocab)
    as (tr & table & Hrun & Hinv).
  destruct Hinv as (Hnd & _ & _ & _ & Hfw & Hmet).
  exists (Forward [x_0] :: tr), table.
  split; [exact Hrun|]. split; [exact Hnd|]. split; [|split].
  - intros q bl b i df. apply reach_step_seen.
  - exact Hmet.
  - simpl. now rewrite Hfw.
Qed.

(** C3. The rows of a reachable-set table come in ascending order of the
    smallest candidate prompt id that predicts their answer: the order in
    which the scan of [0, vocab_size)] first meets the answers.  The
    question has at least one token id, its ids and the candidates are of
    64 bits. *)
Theorem reachable_set_in_discovery_order (x_0 : list Z) :
  x_0 <> [] -> Forall in_int64 x_0 -> vocab_size <= 2 ^ 63 ->
  exists tr table idxs,
    get_reachable_set (token_list x_0) (Some 1) = (tr, inr table)
    /\ map (fun r => first_candidate x_0 (answer_ids r)) table
       = map Some idxs
    /\ StronglySorted Z.lt idxs.
Proof.
  intros Hne H64 Hvocab.
  destruct (get_reachable_set_run x_0 Hne H64 Hvocab)
    as (tr & table & Hrun & Hinv).
  destruct Hinv as (_ & _ & (idxs & Hidx & Hsort) & _).
  now exists (Forward [x_0] :: tr), table, idxs.
Qed.

(** C4. With [max_prompt_tokens] anything but 1, the default included,
    the search fails with the not-implemented assertion and no event at
    all, so before any forward pass; with 1 it does not fail so. *)
Theorem get_reachable_set_requires_one (x_0 : list pyelem)
    (max_prompt_tokens : option Z) :
  (max_prompt_tokens <> Some 1 ->
   get_reachable_set x_0 max_prompt_tokens = ([], inl NotImplemented))
  /\ outcome (get_reachable_set x_0 (Some 1)) <> inl NotImplemented.
Proof.
  split.
  - intros Hne. unfold get_reachable_set.
    assert (E : (match max_prompt_tokens with
                 | Some m => m
                 | None => default_max_prompt_tokens
                 end =? 1) = false).
    { destruct max_prompt_tokens as [m|]; [|reflexivity].
      apply Z.eqb_neq. intros ->. now apply Hne. }
    rewrite E. reflexivity.
  - unfold get_reachable_set, torch_tensor.
    change (py_assert (1 =? 1) NotImplemented) with (ret tt).
    rewrite bind_ret_l.
    destruct (as_token_ids x_0) as [ids|] eqn:E; [|discriminate].
    unfold int64_tensor.
    destruct (forallb fits_int64 ids); [|discriminate].
    rewrite bind_ret_l. unfold forward_row, emit, ret. rewrite !bind_ok.
    unfold last_position, py_assert, outcome.
    destruct (negb (len ids =? 0)); [|discriminate].
    cbn [fst snd app]. unfold ret. rewrite bind_ok. cbn [snd].
    intros H. apply for_each_errors in H.
    destruct H as (x & s' & _ & H).
    apply reach_step_errors in H. discriminate H.
Qed.

(** C5. In a reachable-set table [base_correct] holds exactly of the rows
    whose answer is the model's prediction for the question alone; when
    that id is in the table, it is the answer of one row only, which is the
    one row with [base_correct] set; otherwise no row has it set.  The
    question has at least one token id, its ids and the candidates are of
    64 bits. *)
Theorem base_correct_marks_base_prediction (x_0 : list Z) :
  x_0 <> [] -> Forall in_int64 x_0 -> vocab_size <= 2 ^ 63 ->
  exists tr table,
    get_reachable_set (token_list x_0) (Some 1) = (tr, inr table)
    /\ (forall r, In r table ->
                  (base_correct r = true <-> answer_ids r = base_prediction x_0))
    /\ (In (base_prediction x_0) (answer_ids_column table) ->
        count_answer (base_prediction x_0) table = 1%nat
        /\ exists r, filter base_correct table = [r]
                     /\ answer_ids r = base_prediction x_0)
    /\ (~ In (base_prediction x_0) (answer_ids_column table) ->
        filter base_correct table = []).
Proof.
  intros Hne H64 Hvocab.
  destruct (get_reachable_set_run x_0 Hne H64 Hvocab)
    as (tr & table & Hrun & Hinv).
  destruct Hinv as (Hnd & _ & _ & Hrows & _).
  exists (Forward [x_0] :: tr), table. split; [exact Hrun|].
  assert (Hbc : forall r, In r table ->
            base_correct r = (answer_ids r =? base_prediction x_0)).
  { rewrite Forall_forall in Hrows. intros r Hr.
    destruct (Hrows r Hr) as (i & _ & ->). simpl. apply Z.eqb_sym. }
  assert (Hfilter : filter base_correct table
                    = filter (fun r => answer_ids r =? base_prediction x_0) table).
  { now apply filter_ext_in. }
  split; [|split].
  - intros r Hr. rewrite (Hbc r Hr). apply Z.eqb_eq.
  - intros Hin.
    assert (Hone : count_answer (base_prediction x_0) table = 1%nat)
      by now apply count_answer_once.
    split; [exact Hone|].
    unfold count_answer in Hone. rewrite <- Hfilter in Hone.
    destruct (singleton_of_length_one _ Hone) as (r & Hr). exists r.
    split; [exact Hr|].
    assert (Hm : In r (filter base_correct table)) by (rewrite Hr; now left).
    apply filter_In in Hm. destruct Hm as (Hm & Ht).
    rewrite (Hbc r Hm) in Ht. now apply Z.eqb_eq.
  - intros Hnin. apply count_answer_absent in Hnin.
    unfold count_answer in Hnin. rewrite <- Hfilter in Hnin.
    now apply length_zero_iff_nil.
Qed.

(** ** Tensors as lists of rows *)

Lemma len_nonneg {A : Type} (l : list A) : 0 <= len l.
Proof. unfold len. lia. Qed.

Lemma len_one {A : Type} (l : list A) : len l = 1 -> exists x, l = [x].
Proof.
  unfold len. intros H. apply singleton_of_length_one. lia.
Qed.

Lemma range_length (n : Z) : List.length (range n) = Z.to_nat n.
Proof. unfold range. now rewrite length_map, length_seq. Qed.

Lemma range_pos (n : Z) : 0 < n -> exists rest, range n = 0 :: rest.
Proof.
  intros Hn. unfold range. destruct (Z.to_nat n) as [|k] eqn:E; [lia|].
  simpl. now eexists.
Qed.

Lemma repeat_rows_one (q : list Z) (n : nat) : repeat_rows [q] n = repeat q n.
Proof.
  unfold repeat_rows. induction n as [|n IH]; simpl; [reflexivity|].
  now rewrite IH.
Qed.

Lemma cat_last_repeat (prompt_ids : list (list Z)) (q : list Z) :
  cat_last prompt_ids (repeat q (List.length prompt_ids))
  = map (fun p => p ++ q) prompt_ids.
Proof.
  unfold cat_last. induction prompt_ids as [|p ps IH]; simpl; [reflexivity|].
  now rewrite IH.
Qed.

Lemma cat_last_length (a b : list (list Z)) :
  List.length a = List.length b -> List.length (cat_last a b) = List.length a.
Proof.
  intros H. unfold cat_last. rewrite length_map, length_combine. lia.
Qed.

Lemma skipn_repeat {A : Type} (x : A) (m n : nat) :
  skipn m (repeat x n) = repeat x (n - m).
Proof.
  revert m. induction n as [|n IH]; intros [|m]; simpl; trivial.
Qed.

Lemma slice_length {A : Type} (l : list A) (a b : Z) :
  0 <= a <= b -> b <= len l -> len (slice l a b) = b - a.
Proof.
  unfold len, slice. intros Hab Hb. rewrite length_firstn, length_skipn. lia.
Qed.

Lemma firstn_slice {A : Type} (l : list A) (a b : Z) :
  0 <= a <= b ->
  firstn (Z.to_nat a) l ++ slice l a b = firstn (Z.to_nat b) l.
Proof.
  intros Hab. unfold slice. rewrite firstn_skipn_comm.
  replace (Z.to_nat a + Z.to_nat (b - a))%nat with (Z.to_nat b) by lia.
  rewrite <- (firstn_skipn (Z.to_nat a) (firstn (Z.to_nat b) l)) at 2.
  f_equal. rewrite firstn_firstn. f_equal. lia.
Qed.


(** The number of chunks: [x] is the index of a chunk exactly when the
    chunk starts inside the batch. *)
Lemma ceil_div_lt (n m x : Z) : 0 < m -> (x < ceil_div n m <-> x * m < n).
Proof.
  intros Hm. unfold ceil_div.
  pose proof (Z.div_mod (- n) m ltac:(lia)) as Hdiv.
  pose proof (Z.mod_pos_bound (- n) m Hm) as Hmod.
  split; intros H; nia.
Qed.

(** ** [_get_answer_ids] *)

(** The call with its replication step resolved: [qs] is the question
    tensor the assertion sees. *)
Lemma get_answer_ids_unfold (prompt_ids question_ids : list (list Z)) :
  let qs := if (len question_ids =? 1) && (len prompt_ids >? 1)
            then repeat_rows question_ids (List.length prompt_ids)
            else question_ids in
  _get_answer_ids prompt_ids question_ids
  = if len prompt_ids =? len qs
    then ([Forward (cat_last prompt_ids qs)], inr (answers_matched prompt_ids qs))
    else ([], inl InvalidInput).
Proof.
  intros qs. unfold _get_answer_ids. fold qs.
  destruct (len prompt_ids =? len qs) eqn:E; [|reflexivity].
  apply Z.eqb_eq in E.
  unfold py_assert, forward, emit, ret, bind at 1 2 3. simpl.
  assert (Hshape : (len (map (fun l => [argmax l])
                             (map model (cat_last prompt_ids qs)))
                    =? len prompt_ids) = true).
  { apply Z.eqb_eq. unfold len in *. rewrite !length_map, cat_last_length; lia. }
  rewrite Hshape. simpl. unfold answers_matched, cat_last.
  now rewrite !map_map.
Qed.

(** One question row against a batch of at least one prompt. *)
Lemma get_answer_ids_broadcast (prompt_ids : list (list Z)) (q : list Z) :
  prompt_ids <> [] ->
  _get_answer_ids prompt_ids [q]
  = ([Forward (map (fun p => p ++ q) prompt_ids)],
     inr (answers_against q prompt_ids)).
Proof.
  intros Hne. rewrite get_answer_ids_unfold.
  change (len [q] =? 1) with true. cbn [andb].
  assert (Hcat : forall qs, qs = repeat q (List.length prompt_ids) ->
            cat_last prompt_ids qs = map (fun p => p ++ q) prompt_ids
            /\ answers_matched prompt_ids qs = answers_against q prompt_ids
            /\ (len prompt_ids =? len qs) = true).
  { intros qs ->. split; [apply cat_last_repeat|split].
    - unfold answers_matched, answers_against.
      clear Hne. induction prompt_ids as [|p ps IH]; simpl; [reflexivity|].
      now rewrite IH.
    - apply Z.eqb_eq. unfold len. now rewrite repeat_length. }
  destruct (len prompt_ids >? 1) eqn:E.
  - destruct (Hcat (repeat_rows [q] (List.length prompt_ids)))
      as (-> & -> & ->); [apply repeat_rows_one|reflexivity].
  - destruct (Hcat [q]) as (-> & -> & ->); [|reflexivity].
    destruct prompt_ids as [|p [|p' ps]]; [contradiction|reflexivity|].
    exfalso. rewrite Z.gtb_ltb in E. apply Z.ltb_ge in E.
    unfold len in E. simpl in E. lia.
Qed.

Lemma answers_against_length (q : list Z) (prompt_ids : list (list Z)) :
  len (answers_against q prompt_ids) = len prompt_ids.
Proof. unfold len, answers_against. now rewrite length_map. Qed.



(** ** [_batch_get_answer_ids] *)

Lemma firstn_app_exact {A : Type} (l r : list A) (m : nat) :
  List.length l = m -> firstn m (l ++ r) = l.
Proof.
  intros <-. rewrite firstn_app, Nat.sub_diag, firstn_all. simpl.
  apply app_nil_r.
Qed.

Lemma skipn_app_past {A : Type} (l r : list A) (m : nat) :
  (List.length l <= m)%nat -> skipn m (l ++ r) = skipn (m - List.length l) r.
Proof.
  intros H. rewrite skipn_app, skipn_all2 by exact H. reflexivity.
Qed.

Lemma batch_invariant_step (prompt_ids : list (list Z)) (q : list Z)
    (max_parallel : Z) (done rest : list Z) (x : Z) (tr : list event)
    (answer_ids : list (list Z)) :
  0 < max_parallel ->
  range (ceil_div (len prompt_ids) max_parallel) = done ++ x :: rest ->
  batch_invariant prompt_ids q max_parallel done tr answer_ids ->
  exists tr' answer_ids',
    batch_step prompt_ids [q] max_parallel (len prompt_ids) x answer_ids
    = (tr', inr answer_ids')
    /\ batch_invariant prompt_ids q max_parallel (done ++ [x]) (tr ++ tr')
                       answer_ids'.
Proof.
  intros Hm Hall (Hbuf & cs & Hcs & Hsize & Htr).
  destruct (range_split _ _ _ _ Hall) as (Hx & Hx0 & Hxn).
  apply ceil_div_lt in Hxn; [|exact Hm].
  set (a := x * max_parallel) in *.
  set (b := Z.min ((x + 1) * max_parallel) (len prompt_ids)).
  assert (Hab : 0 <= a < b /\ b <= len prompt_ids) by (unfold a, b; nia).
  assert (Hk : Z.to_nat (Z.min (len done * max_parallel) (len prompt_ids))
               = Z.to_nat a) by (unfold a; rewrite <- Hx; lia).
  assert (Hk' : Z.to_nat (Z.min (len (done ++ [x]) * max_parallel)
                                (len prompt_ids)) = Z.to_nat b).
  { unfold b, len. rewrite length_app. simpl. unfold len in Hx. f_equal. nia. }
  rewrite Hk in *.
  assert (Hchunk : len (slice prompt_ids a b) = b - a)
    by (apply slice_length; lia).
  assert (Hne : slice prompt_ids a b <> []).
  { intros E. rewrite E in Hchunk. unfold len in Hchunk. simpl in Hchunk. lia. }
  assert (Hlenbuf : len answer_ids = len prompt_ids).
  { rewrite Hbuf. unfold len, answers_against.
    rewrite length_app, length_map, length_firstn, repeat_length.
    unfold len in Hab. lia. }
  exists [Forward (map (fun p => p ++ q) (slice prompt_ids a b))],
    (answers_against q (firstn (Z.to_nat b) prompt_ids)
     ++ repeat [0] (List.length prompt_ids - Z.to_nat b)).
  split.
  - unfold batch_step. fold a. fold b.
    rewrite get_answer_ids_broadcast by exact Hne. rewrite bind_ok.
    unfold set_slice.
    assert (Hshape : (len (answers_against q (slice prompt_ids a b))
                      =? len (slice answer_ids a b)) = true).
    { apply Z.eqb_eq. rewrite answers_against_length, Hchunk.
      symmetry. apply slice_length; lia. }
    rewrite Hshape. unfold py_assert, ret, bind. simpl. do 2 f_equal.
    rewrite Hbuf.
    rewrite firstn_app_exact.
    2:{ unfold answers_against. rewrite length_map, length_firstn.
        unfold len in Hab. lia. }
    rewrite skipn_app_past.
    2:{ unfold answers_against. rewrite length_map, length_firstn. lia. }
    rewrite skipn_repeat.
    rewrite <- (firstn_slice prompt_ids a b) by lia.
    unfold answers_against. rewrite map_app, <- app_assoc. do 2 f_equal.
    rewrite length_map, length_firstn. f_equal. unfold len in Hab. lia.
  - unfold batch_invariant. rewrite Hk'. split; [reflexivity|].
    exists (cs ++ [slice prompt_ids a b]). split; [|split].
    + rewrite concat_app, Hcs. simpl. rewrite app_nil_r.
      apply firstn_slice. lia.
    + apply Forall_app. split; [exact Hsize|].
      constructor; [|constructor]. rewrite Hchunk. unfold b. lia.
    + rewrite Htr. unfold chunk_events. now rewrite map_app.
Qed.

(** The chunked run of a batch against one question row: it succeeds, its
    forward passes are over chunks that make up the batch, and its output
    is the answers of the prompt rows in their order. *)
Lemma batch_broadcast_run (prompt_ids : list (list Z)) (q : list Z)
    (max_parallel : Z) :
  0 < max_parallel ->
  exists cs,
    concat cs = prompt_ids
    /\ Forall (fun c => 0 < len c <= max_parallel) cs
    /\ _batch_get_answer_ids prompt_ids [q] (Some max_parallel)
       = (chunk_events q cs, inr (answers_against q prompt_ids)).
Proof.
  intros Hm.
  destruct (for_each_invariant
              (batch_step prompt_ids [q] max_parallel (len prompt_ids))
              (batch_invariant prompt_ids q max_parallel)
              (range (ceil_div (len prompt_ids) max_parallel)))
    with (s := zeros (len prompt_ids))
    as (tr & out & Hrun & Hout & cs & Hcs & Hsize & Htr).
  - intros done x rest tr s Hall Hinv.
    now apply (batch_invariant_step prompt_ids q max_parallel done rest x).
  - unfold batch_invariant. simpl.
    replace (Z.to_nat (Z.min 0 (len prompt_ids))) with 0%nat
      by (pose proof (len_nonneg prompt_ids); lia).
    simpl. split.
    + unfold zeros, len. f_equal. lia.
    + exists []. repeat split. constructor.
  - assert (Hk : Z.to_nat (Z.min (len (range (ceil_div (len prompt_ids)
                                                       max_parallel))
                                  * max_parallel) (len prompt_ids))
                 = List.length prompt_ids).
    { pose proof (ceil_div_lt (len prompt_ids) max_parallel
                    (ceil_div (len prompt_ids) max_parallel) Hm) as H1.
      pose proof (ceil_div_lt (len prompt_ids) max_parallel (-1) Hm) as H2.
      pose proof (len_nonneg prompt_ids) as H3.
      unfold len at 1. rewrite range_length. unfold len in *. nia. }
    rewrite Hk in *. rewrite firstn_all in *.
    rewrite Nat.sub_diag in Hout. simpl in Hout. rewrite app_nil_r in Hout.
    exists cs. split; [exact Hcs|]. split; [exact Hsize|].
    unfold _batch_get_answer_ids.
    assert (E : negb (max_parallel =? 0) = true).
    { apply negb_true_iff, Z.eqb_neq. lia. }
    rewrite E. unfold py_assert. rewrite bind_ret_l, Hrun.
    now rewrite Htr, Hout.
Qed.






(** ** [forward_generate] *)

(** The driver's loop on rows whose searches succeed appends their tables
    to the table it starts with. *)
Lemma generate_loop_tables (n : Z) (max_prompt_tokens : option Z)
    (rows : list state_row) (tables : list DataFrame) :
  Forall2 (fun r t => exists x_0,
               state_question_ids r = PyList x_0
               /\ outcome (get_reachable_set x_0 max_prompt_tokens) = inr t)
          rows tables ->
  forall df,
    outcome (for_each rows (generate_step n max_prompt_tokens) df)
    = inr (df ++ concat tables).
Proof.
  induction 1 as [|r t rows tables (x_0 & Hcell & Ht) _ IH]; intros df.
  - simpl. now rewrite app_nil_r.
  - cbn [for_each]. unfold generate_step at 1. rewrite Hcell.
    destruct (get_reachable_set x_0 max_prompt_tokens) as (tr & res) eqn:Hg.
    unfold outcome in Ht. simpl in Ht. subst res.
    unfold emit, ret, bind at 2 3. cbn [fst snd].
    rewrite bind_ok. unfold outcome in *. cbn [snd]. rewrite IH.
    simpl. now rewrite <- app_assoc.
Qed.

(** A run of the loop that succeeds on the rows [pre] and then meets a row
    that fails stops there, with the events of [pre] and those of that
    row. *)
Lemma for_each_stops {X S : Type} (body : X -> S -> M S)
    (pre post : list X) (bad : X) (s s' : S) (tr tr' : list event) (e : error) :
  for_each pre body s = (tr, inr s') ->
  body bad s' = (tr', inl e) ->
  for_each (pre ++ bad :: post) body s = (tr ++ tr', inl e).
Proof.
  revert s tr. induction pre as [|x pre IH]; intros s tr Hpre Hbad.
  - simpl in *. injection Hpre as <- <-. now rewrite Hbad.
  - simpl in *. destruct (body x s) as (tr1 & [e1|s1]); [discriminate|].
    rewrite bind_ok in *.
    destruct (for_each pre body s1) as (tr2 & r2) eqn:Hrest.
    simpl in Hpre. injection Hpre as <- ->.
    rewrite (IH s1 tr2 Hrest Hbad). simpl. now rewrite app_assoc.
Qed.

Lemma generate_step_not_list (n : Z) (max_prompt_tokens : option Z)
    (r : state_row) (df : DataFrame) :
  type_is_list (state_question_ids r) = false ->
  generate_step n max_prompt_tokens r df = ([], inl TypeAssertion).
Proof.
  unfold generate_step. now destruct (state_question_ids r).
Qed.

(** C8, as the code has it.  When the search succeeds on every row, the
    driver returns the tables of the rows one after the other in the order
    of the rows, each taken whole; it does so when [max_prompt_tokens = 1]
    for every collection whose cells are lists of at least one token id,
    the ids of 64 bits, over a vocabulary of at most 2^63 tokens.  When the
    rows before a row succeed and the [question_ids] cell of that row is not
    a list object, the driver fails with the type assertion, and the events
    of the run are those of the rows before: none for that row. *)
Theorem forward_generate_concatenates (unique_states : list state_row)
    (max_prompt_tokens : option Z) :
  (forall tables,
      Forall2 (fun r t => exists x_0,
                   state_question_ids r = PyList x_0
                   /\ outcome (get_reachable_set x_0 max_prompt_tokens) = inr t)
              unique_states tables ->
      outcome (forward_generate unique_states max_prompt_tokens)
      = inr (concat tables))
  /\ ((forall r, In r unique_states ->
                 exists ids, state_question_ids r = PyList (token_list ids)
                             /\ ids <> [] /\ Forall in_int64 ids) ->
      vocab_size <= 2 ^ 63 ->
      exists tables,
        Forall2 (fun r t => exists x_0,
                     state_question_ids r = PyList x_0
                     /\ outcome (get_reachable_set x_0 (Some 1)) = inr t)
                unique_states tables
        /\ outcome (forward_generate unique_states (Some 1))
           = inr (concat tables))
  /\ (forall pre bad post tr df,
        unique_states = pre ++ bad :: post ->
        type_is_list (state_question_ids bad) = false ->
        for_each pre (generate_step (len unique_states) max_prompt_tokens) []
        = (tr, inr df) ->
        generate_step (len unique_states) max_prompt_tokens bad df
        = ([], inl TypeAssertion)
        /\ forward_generate unique_states max_prompt_tokens
           = (tr, inl TypeAssertion)).
Proof.
  split; [|split].
  - intros tables Htables. unfold forward_generate.
    now rewrite (generate_loop_tables _ _ _ tables Htables).
  - intros Hcells Hvocab.
    assert (Hex : exists tables,
               Forall2 (fun r t => exists x_0,
                            state_question_ids r = PyList x_0
                            /\ outcome (get_reachable_set x_0 (Some 1)) = inr t)
                       unique_states tables).
    { induction unique_states as [|r rows IH].
      - exists []. constructor.
      - destruct IH as (tables & Htables).
        { intros r' Hr'. apply Hcells. now right. }
        destruct (Hcells r (or_introl eq_refl)) as (ids & Hids & Hne & H64).
        destruct (get_reachable_set_run ids Hne H64 Hvocab)
          as (tr & table & Hrun & _).
        exists (table :: tables). constructor; [|exact Htables].
        exists (token_list ids). split; [exact Hids|].
        unfold outcome. now rewrite Hrun. }
    destruct Hex as (tables & Htables). exists tables.
    split; [exact Htables|]. unfold forward_generate.
    now rewrite (generate_loop_tables _ _ _ tables Htables).
  - intros pre bad post tr df Hsplit Hbad Hpre.
    assert (Hstep : generate_step (len unique_states) max_prompt_tokens bad df
                    = ([], inl TypeAssertion))
      by now apply generate_step_not_list.
    split; [exact Hstep|].
    subst unique_states. unfold forward_generate. cbv zeta.
    rewrite (for_each_stops _ pre post bad _ df tr [] TypeAssertion Hpre Hstep).
    now rewrite app_nil_r.
Qed.

(** C9. [max_prompt_tokens] defaults to 10 in both functions, so that
    without it the search fails with the not-implemented assertion and no
    event, and the driver fails on any collection that is not empty: at its
    first row, with the type assertion or the not-implemented one, and
    before any forward pass. *)
Theorem default_max_prompt_tokens_never_runs :
  default_max_prompt_tokens = 10
  /\ (forall x_0, get_reachable_set x_0 None = ([], inl NotImplemented))
  /\ (forall unique_states,
        unique_states <> [] ->
        exists tr e,
          forward_generate unique_states None = (tr, inl e)
          /\ (e = NotImplemented \/ e = TypeAssertion)
          /\ filter is_forward tr = []).
Proof.
  split; [reflexivity|]. split; [reflexivity|].
  intros [|r rows] Hne; [contradiction|].
  unfold forward_generate. cbn [for_each]. unfold generate_step at 1.
  destruct (state_question_ids r) as [x_0|s|l].
  - eexists _, NotImplemented. split; [reflexivity|]. split; [now left|reflexivity].
  - eexists _, TypeAssertion. split; [reflexivity|]. split; [now right|reflexivity].
  - eexists _, TypeAssertion. split; [reflexivity|]. split; [now right|reflexivity].
Qed.

(** ** The search as a function of the predictions *)

(** The loop of the search over any candidates of 64 bits, from any table:
    its events and the rows it adds. *)
Lemma reach_loop_closed_form (x_0 : list Z) (cs : list Z) (df : DataFrame) :
  Forall in_int64 cs ->
  for_each cs (reach_step x_0 (decode x_0) (model x_0) (argmax (model x_0))) df
  = (search_events x_0 (answer_ids_column df) cs,
     inr (df ++ map (discovered_row x_0)
                    (fresh_candidates x_0 (answer_ids_column df) cs))).
Proof.
  intros H64. revert df. induction H64 as [|c cs Hc _ IH]; intros df.
  - simpl. now rewrite app_nil_r.
  - cbn [for_each fresh_candidates search_events].
    destruct (py_in (prediction x_0 c) (answer_ids_column df)) eqn:E.
    + rewrite reach_step_seen by (trivial; now apply py_in_In).
      rewrite bind_ok, IH. reflexivity.
    + rewrite reach_step_new; [|exact Hc|].
      2:{ intros H. apply py_in_In in H. congruence. }
      rewrite bind_ok, IH. cbn [fst snd].
      unfold answer_ids_column. rewrite map_app. cbn [map].
      change (answer_ids (discovered_row x_0 c)) with (prediction x_0 c).
      now rewrite <- app_assoc.
Qed.

Lemma get_reachable_set_closed_form (x_0 : list Z) :
  x_0 <> [] -> Forall in_int64 x_0 -> vocab_size <= 2 ^ 63 ->
  get_reachable_set (token_list x_0) (Some 1)
  = (Forward [x_0] :: search_events x_0 [] (range vocab_size),
     inr (map (discovered_row x_0) (fresh_candidates x_0 [] (range vocab_size)))).
Proof.
  intros Hne H64 Hvocab.
  rewrite get_reachable_set_unfold by assumption.
  rewrite reach_loop_closed_form; [reflexivity|].
  apply Forall_forall. intros i. now apply range_in_int64.
Qed.

(** A fresh candidate is the first of the candidates with its prediction,
    and its prediction was not seen before. *)
Lemma fresh_candidates_first (x_0 : list Z) (cs seen : list Z) (i : Z) :
  In i (fresh_candidates x_0 seen cs) ->
  ~ In (prediction x_0 i) seen
  /\ first_among x_0 cs (prediction x_0 i) = Some i.
Proof.
  revert seen. induction cs as [|c cs IH]; intros seen Hi; [contradiction|].
  unfold first_among in *. cbn [fresh_candidates find] in *.
  destruct (py_in (prediction x_0 c) seen) eqn:E.
  - destruct (IH seen Hi) as (Hn & Hf). split; [exact Hn|].
    destruct (prediction x_0 c =? prediction x_0 i) eqn:E'; [|exact Hf].
    apply Z.eqb_eq in E'. apply py_in_In in E. congruence.
  - destruct Hi as [<-|Hi].
    + split; [|now rewrite Z.eqb_refl].
      intros H. apply py_in_In in H. congruence.
    + destruct (IH _ Hi) as (Hn & Hf). split.
      * intros H. apply Hn, in_or_app. now left.
      * destruct (prediction x_0 c =? prediction x_0 i) eqn:E'; [|exact Hf].
        apply Z.eqb_eq in E'. exfalso. apply Hn, in_or_app. right.
        left. exact E'.
Qed.

Lemma fresh_candidates_length (x_0 : list Z) (cs seen : list Z) :
  (List.length (fresh_candidates x_0 seen cs) <= List.length cs)%nat.
Proof.
  revert seen. induction cs as [|c cs IH]; intros seen; simpl; [lia|].
  destruct (py_in _ _); simpl; [specialize (IH seen)|specialize (IH (seen ++ [prediction x_0 c]))]; lia.
Qed.

Lemma search_events_forward (x_0 : list Z) (cs seen : list Z) :
  filter is_forward (search_events x_0 seen cs)
  = map (fun i => Forward [[i] ++ x_0]) cs.
Proof.
  revert seen. induction cs as [|c cs IH]; intros seen; [reflexivity|].
  cbn [search_events map]. destruct (py_in _ _).
  - cbn [filter is_forward]. now rewrite IH.
  - rewrite filter_app. cbn. now rewrite IH.
Qed.

Lemma search_events_found (x_0 : list Z) (cs seen : list Z) :
  filter is_found (search_events x_0 seen cs)
  = map (fun i => PrintFound i (decode [prediction x_0 i]))
        (fresh_candidates x_0 seen cs).
Proof.
  revert seen. induction cs as [|c cs IH]; intros seen; [reflexivity|].
  cbn [search_events fresh_candidates]. destruct (py_in _ _).
  - cbn [filter is_found]. apply IH.
  - rewrite filter_app. cbn. now rewrite IH.
Qed.

Lemma fresh_candidates_answers (x_0 : list Z) (cs seen : list Z) :
  map (prediction x_0) (fresh_candidates x_0 seen cs)
  = first_occurrences seen (map (prediction x_0) cs).
Proof.
  revert seen. induction cs as [|c cs IH]; intros seen; [reflexivity|].
  cbn [fresh_candidates first_occurrences map]. destruct (py_in _ _).
  - apply IH.
  - cbn [map]. now rewrite IH.
Qed.

Lemma fresh_candidates_sub (x_0 : list Z) (cs seen : list Z) (i : Z) :
  In i (fresh_candidates x_0 seen cs) -> In i cs.
Proof.
  revert seen. induction cs as [|c cs IH]; intros seen; simpl; [trivial|].
  destruct (py_in _ _); simpl; intros H.
  - right. now apply (IH seen).
  - destruct H as [H|H]; [now left|right; now apply (IH _ H)].
Qed.

Lemma fresh_candidates_sorted (x_0 : list Z) (cs seen : list Z) :
  StronglySorted Z.lt cs ->
  StronglySorted Z.lt (fresh_candidates x_0 seen cs).
Proof.
  intros Hs. revert seen. induction Hs as [|c cs Hs IH Hall]; intros seen.
  - constructor.
  - simpl. destruct (py_in _ _); [apply IH|].
    constructor; [apply IH|].
    rewrite Forall_forall in *. intros i Hi.
    apply Hall. now apply fresh_candidates_sub in Hi.
Qed.

Lemma fresh_candidates_intro (x_0 : list Z) (l1 l2 seen : list Z) (i : Z) :
  ~ In (prediction x_0 i) seen ->
  (forall j, In j l1 -> prediction x_0 j <> prediction x_0 i) ->
  In i (fresh_candidates x_0 seen (l1 ++ i :: l2)).
Proof.
  revert seen. induction l1 as [|c l1 IH]; intros seen Hseen Hbefore.
  - simpl. destruct (py_in _ _) eqn:E; [|now left].
    apply py_in_In in E. contradiction.
  - simpl. destruct (py_in (prediction x_0 c) seen).
    + apply IH; [exact Hseen|]. intros j Hj. apply Hbefore. now right.
    + right. apply IH.
      * intros H. apply in_app_or in H. destruct H as [H|[H|[]]].
        -- contradiction.
        -- apply (Hbefore c); [now left|exact H].
      * intros j Hj. apply Hbefore. now right.
Qed.

Lemma find_first {A : Type} (f : A -> bool) (l : list A) (x : A) :
  find f l = Some x ->
  exists l1 l2, l = l1 ++ x :: l2 /\ forall y, In y l1 -> f y = false.
Proof.
  induction l as [|a l IH]; simpl; [discriminate|].
  destruct (f a) eqn:E.
  - intros [= ->]. exists [], l. split; [reflexivity|]. intros y [].
  - intros H. destruct (IH H) as (l1 & l2 & -> & Hl1).
    exists (a :: l1), l2. split; [reflexivity|].
    intros y [<-|Hy]; [exact E|now apply Hl1].
Qed.

Lemma sorted_suffix_gt (done rest : list Z) (x : Z) :
  StronglySorted Z.lt (done ++ x :: rest) -> forall i, In i rest -> x < i.
Proof.
  induction done as [|d done IH]; intros Hs i Hi.
  - simpl in Hs. inversion Hs as [|? ? _ Hall]; subst.
    rewrite Forall_forall in Hall. now apply Hall.
  - simpl in Hs. inversion Hs; subst. now apply IH.
Qed.

(** The fresh candidates of the vocabulary are the candidates whose
    prediction no smaller candidate makes. *)
Lemma fresh_candidates_range (x_0 : list Z) (i : Z) :
  In i (fresh_candidates x_0 [] (range vocab_size)) <->
  0 <= i < vocab_size
  /\ forall j, 0 <= j < i -> prediction x_0 j <> prediction x_0 i.
Proof.
  split.
  - intros Hi. split; [apply range_In; now apply fresh_candidates_sub in Hi|].
    destruct (fresh_candidates_first _ _ _ _ Hi) as (_ & Hf).
    destruct (find_first _ _ _ Hf) as (l1 & l2 & Hsplit & Hl1).
    pose proof (range_sorted vocab_size) as Hs. rewrite Hsplit in Hs.
    intros j Hj.
    assert (Hjr : In j (range vocab_size)).
    { apply range_In. apply fresh_candidates_sub, range_In in Hi. lia. }
    rewrite Hsplit in Hjr. apply in_app_or in Hjr.
    destruct Hjr as [Hjr|[Hjr|Hjr]].
    + apply Hl1 in Hjr. now apply Z.eqb_neq in Hjr.
    + lia.
    + apply (sorted_suffix_gt _ _ _ Hs) in Hjr. lia.
  - intros (Hi & Hsmall). apply range_In in Hi.
    destruct (in_split _ _ Hi) as (l1 & l2 & Hsplit). rewrite Hsplit.
    apply fresh_candidates_intro; [intros []|].
    intros j Hj. apply Hsmall.
    pose proof (range_sorted vocab_size) as Hs. rewrite Hsplit in Hs.
    pose proof (sorted_prefix_lt _ _ _ Hs j Hj).
    assert (In j (range vocab_size))
      by (rewrite Hsplit; apply in_or_app; now left).
    apply range_In in H0. lia.
Qed.

(** X1. The search with [max_prompt_tokens = 1] is a function of the
    predictions: its table holds the rows of the candidates whose
    prediction no smaller candidate makes, in ascending order of the
    candidates, and its events are the forward pass on the question alone
    followed by those of the candidates in turn.  The
    question has at least one token id, its ids and the candidates are of
    64 bits. *)
Theorem get_reachable_set_is_first_occurrences (x_0 : list Z) :
  x_0 <> [] -> Forall in_int64 x_0 -> vocab_size <= 2 ^ 63 ->
  get_reachable_set (token_list x_0) (Some 1)
  = (Forward [x_0] :: search_events x_0 [] (range vocab_size),
     inr (map (discovered_row x_0)
              (fresh_candidates x_0 [] (range vocab_size))))
  /\ StronglySorted Z.lt (fresh_candidates x_0 [] (range vocab_size))
  /\ forall i,
      In i (fresh_candidates x_0 [] (range vocab_size)) <->
      0 <= i < vocab_size
      /\ forall j, 0 <= j < i -> prediction x_0 j <> prediction x_0 i.
Proof.
  intros Hne H64 Hvocab.
  split; [now apply get_reachable_set_closed_form|]. split.
  - apply fresh_candidates_sorted, range_sorted.
  - apply fresh_candidates_range.
Qed.

(** X2. Every row of a reachable-set table carries the question it was
    computed for and the constants of the method: [prompt_correct] is true,
    [prompt_length] is 1, [question_length] is the length of the question,
    [search_method] is "forward", [question_ids] is the question and
    [question] its decoded text.  The
    question has at least one token id, its ids and the candidates are of
    64 bits. *)
Theorem reachable_set_row_constants (x_0 : list Z) :
  x_0 <> [] -> Forall in_int64 x_0 -> vocab_size <= 2 ^ 63 ->
  exists tr table,
    get_reachable_set (token_list x_0) (Some 1) = (tr, inr table)
    /\ Forall (fun r =>
                 prompt_correct r = true
                 /\ prompt_length r = 1
                 /\ question_length r = len x_0
                 /\ search_method r = "forward"%string
                 /\ question_ids r = x_0
                 /\ question r = decode x_0) table.
Proof.
  intros Hne H64 Hvocab.
  eexists _, _. split; [now apply get_reachable_set_closed_form|].
  apply Forall_forall. intros r Hr. apply in_map_iff in Hr.
  destruct Hr as (i & <- & _). repeat split.
Qed.

(** X3. The metrics of a row are those of the smallest candidate prompt
    that predicts its answer: the answer text decodes the answer id, the
    base loss scores the answer against the logits of the question alone,
    and the prompted loss scores it against the logits of that smallest
    prompt followed by the question, whatever later prompts with the same
    prediction would give.  The
    question has at least one token id, its ids and the candidates are of
    64 bits. *)
Theorem reachable_set_row_metrics (x_0 : list Z) :
  x_0 <> [] -> Forall in_int64 x_0 -> vocab_size <= 2 ^ 63 ->
  exists tr table,
    get_reachable_set (token_list x_0) (Some 1) = (tr, inr table)
    /\ forall r, In r table ->
         exists i,
           first_candidate x_0 (answer_ids r) = Some i
           /\ prediction x_0 i = answer_ids r
           /\ answer r = decode [answer_ids r]
           /\ base_loss r = cross_entropy (model x_0) (answer_ids r)
           /\ prompted_loss r
              = cross_entropy (model ([i] ++ x_0)) (answer_ids r).
Proof.
  intros Hne H64 Hvocab.
  eexists _, _. split; [now apply get_reachable_set_closed_form|].
  intros r Hr. apply in_map_iff in Hr. destruct Hr as (i & <- & Hi).
  exists i. apply fresh_candidates_first in Hi. destruct Hi as (_ & Hf).
  repeat split. exact Hf.
Qed.

(** X4. The search runs the model on the question alone and then once on
    every candidate prompt of the vocabulary followed by the question, in
    ascending order, one row a pass, whether the prediction is new or not.  The
    question has at least one token id, its ids and the candidates are of
    64 bits. *)
Theorem get_reachable_set_forward_passes (x_0 : list Z) :
  x_0 <> [] -> Forall in_int64 x_0 -> vocab_size <= 2 ^ 63 ->
  exists tr table,
    get_reachable_set (token_list x_0) (Some 1) = (tr, inr table)
    /\ filter is_forward tr
       = Forward [x_0]
         :: map (fun i => Forward [[i] ++ x_0]) (range vocab_size).
Proof.
  intros Hne H64 Hvocab.
  eexists _, _. split; [now apply get_reachable_set_closed_form|].
  cbn [filter is_forward]. now rewrite search_events_forward.
Qed.

(** X5. The search prints one line per row of its table, in the order of
    the rows: the line of a row gives the candidate prompt id that found
    the row, which the row itself does not record, and the answer text of
    the row.  The
    question has at least one token id, its ids and the candidates are of
    64 bits. *)
Theorem get_reachable_set_prints_discoveries (x_0 : list Z) :
  x_0 <> [] -> Forall in_int64 x_0 -> vocab_size <= 2 ^ 63 ->
  exists tr table prompts,
    get_reachable_set (token_list x_0) (Some 1) = (tr, inr table)
    /\ table = map (discovered_row x_0) prompts
    /\ filter is_found tr
       = map (fun i => PrintFound i (answer (discovered_row x_0 i))) prompts.
Proof.
  intros Hne H64 Hvocab.
  eexists _, _, _. split; [now apply get_reachable_set_closed_form|].
  split; [reflexivity|].
  cbn [filter is_found]. now rewrite search_events_found.
Qed.

(** X6. A reachable-set table has at most as many rows as the vocabulary
    has tokens; it is empty exactly when the vocabulary is, and otherwise
    its first row is the row of the candidate prompt 0.  The
    question has at least one token id, its ids and the candidates are of
    64 bits. *)
Theorem reachable_set_size (x_0 : list Z) :
  x_0 <> [] -> Forall in_int64 x_0 -> vocab_size <= 2 ^ 63 ->
  exists tr table,
    get_reachable_set (token_list x_0) (Some 1) = (tr, inr table)
    /\ (List.length table <= Z.to_nat vocab_size)%nat
    /\ (table = [] <-> vocab_size <= 0)
    /\ (0 < vocab_size -> hd_error table = Some (discovered_row x_0 0)).
Proof.
  intros Hne H64 Hvocab.
  eexists _, _. split; [now apply get_reachable_set_closed_form|].
  split; [|split].
  - rewrite length_map, <- range_length. apply fresh_candidates_length.
  - split.
    + intros Hnil. destruct (Z_le_gt_dec vocab_size 0) as [H|H]; [exact H|].
      destruct (range_pos vocab_size ltac:(lia)) as (rest & Hr).
      rewrite Hr in Hnil. discriminate Hnil.
    + intros Hle. unfold range.
      replace (Z.to_nat vocab_size) with 0%nat by lia. reflexivity.
  - intros Hpos. destruct (range_pos vocab_size Hpos) as (rest & ->).
    reflexivity.
Qed.

(** ** The batched path *)

Lemma answers_against_brute_force (x_0 : list Z) (cs : list Z) :
  answers_against x_0 (map (fun i => [i]) cs)
  = map (fun i => [prediction x_0 i]) cs.
Proof. unfold answers_against. now rewrite map_map. Qed.

Lemma concat_singletons {A B : Type} (f : A -> B) (l : list A) :
  concat (map (fun a => [f a]) l) = map f l.
Proof. induction l as [|a l IH]; simpl; [reflexivity|]. now rewrite IH. Qed.

Lemma float_exact_bound_int64 (n : Z) : n < float_exact_bound -> n <= 2 ^ 63.
Proof. unfold float_exact_bound. lia. Qed.

(** The brute-force prompt tensor of a vocabulary of at most 2^63 tokens:
    one row [[i]] per token. *)
Lemma get_prompt_ids_brute_force_ok :
  vocab_size <= 2 ^ 63 ->
  _get_prompt_ids_brute_force
  = ([], inr (map (fun i => [i]) (range vocab_size))).
Proof.
  intros Hvocab. unfold _get_prompt_ids_brute_force.
  rewrite int64_tensor_ok, bind_ret_l; [reflexivity|].
  apply Forall_forall. intros i. now apply range_in_int64.
Qed.

(** X7. For a vocabulary and a chunk size that floats hold exactly, the
    brute-force prompt tensor has one row [[i]] per token of the
    vocabulary; scoring it against one question in chunks gives the
    prediction of every candidate prompt in ascending order; keeping the
    first occurrence of each prediction gives the answer ids of the
    reachable-set table of that question, in the order of its rows.  The
    question has at least one token id, its ids of 64 bits. *)
Theorem brute_force_batch_matches_search (x_0 : list Z) (max_parallel : Z) :
  x_0 <> [] -> Forall in_int64 x_0 ->
  vocab_size < float_exact_bound ->
  0 < max_parallel < float_exact_bound ->
  exists prompt_ids tr out tr' table,
    _get_prompt_ids_brute_force = ([], inr prompt_ids)
    /\ prompt_ids = map (fun i => [i]) (range vocab_size)
    /\ _batch_get_answer_ids prompt_ids [x_0] (Some max_parallel)
       = (tr, inr out)
    /\ out = map (fun i => [prediction x_0 i]) (range vocab_size)
    /\ get_reachable_set (token_list x_0) (Some 1) = (tr', inr table)
    /\ answer_ids_column table = first_occurrences [] (concat out).
Proof.
  intros Hne H64 Hvocab (Hm & _).
  apply float_exact_bound_int64 in Hvocab.
  destruct (batch_broadcast_run (map (fun i => [i]) (range vocab_size))
              x_0 max_parallel Hm)
    as (cs & _ & _ & Hrun).
  eexists _, _, _, _, _.
  split; [now apply get_prompt_ids_brute_force_ok|].
  split; [reflexivity|].
  split; [exact Hrun|].
  split; [apply answers_against_brute_force|].
  split; [now apply get_reachable_set_closed_form|].
  rewrite answers_against_brute_force, concat_singletons.
  unfold answer_ids_column. rewrite map_map.
  rewrite <- fresh_candidates_answers. reflexivity.
Qed.


(** X9. With a chunk size that is not positive the chunked run never calls
    the model: with 0 it fails on the division, and with a negative one it
    returns its zero-initialised buffer, one row [[0]] per prompt row, as the
    answers. *)
Theorem batch_get_answer_ids_nonpositive_chunk
    (prompt_ids question_ids : list (list Z)) (max_parallel : Z) :
  max_parallel <= 0 ->
  exists r,
    _batch_get_answer_ids prompt_ids question_ids (Some max_parallel)
    = ([], r)
    /\ (max_parallel = 0 -> r = inl ZeroDivisionError)
    /\ (max_parallel < 0 -> r = inr (repeat [0] (List.length prompt_ids))).
Proof.
  intros Hle. destruct (Z.eq_dec max_parallel 0) as [->|Hne].
  - eexists. split; [reflexivity|]. split; [reflexivity|lia].
  - eexists. split; [|split; [lia|reflexivity]].
    unfold _batch_get_answer_ids.
    assert (E : negb (max_parallel =? 0) = true)
      by (apply negb_true_iff, Z.eqb_neq; lia).
    rewrite E. unfold py_assert. rewrite bind_ret_l.
    assert (Hnum : ceil_div (len prompt_ids) max_parallel <= 0).
    { unfold ceil_div.
      pose proof (len_nonneg prompt_ids) as Hn.
      pose proof (Z.div_mod (- len prompt_ids) max_parallel ltac:(lia)) as Hd.
      pose proof (Z.mod_neg_bound (- len prompt_ids) max_parallel ltac:(lia))
        as Hb.
      nia. }
    unfold range. replace (Z.to_nat (ceil_div (len prompt_ids) max_parallel))
      with 0%nat by lia.
    simpl. unfold ret, zeros, len. now rewrite Nat2Z.id.
Qed.

















(** ** The driver as a function of the searches *)

Lemma generate_step_closed_form (n : Z) (r : state_row) (df : DataFrame) :
  vocab_size <= 2 ^ 63 ->
  holds_question r ->
  generate_step n (Some 1) r df = (row_events n r, inr (df ++ row_table r)).
Proof.
  intros Hvocab (Hr & Hne & H64). unfold generate_step. rewrite Hr.
  rewrite get_reachable_set_closed_form by assumption.
  unfold emit, ret, bind, row_events, row_table. cbn [fst snd app].
  now rewrite app_nil_r.
Qed.

Lemma generate_loop_closed_form (n : Z) (rows : list state_row)
    (df : DataFrame) :
  vocab_size <= 2 ^ 63 ->
  Forall holds_question rows ->
  for_each rows (generate_step n (Some 1)) df
  = (concat (map (row_events n) rows),
     inr (df ++ concat (map row_table rows))).
Proof.
  intros Hvocab Hrows. revert df.
  induction Hrows as [|r rows Hr _ IH]; intros df.
  - simpl. now rewrite app_nil_r.
  - cbn [for_each]. rewrite generate_step_closed_form by assumption.
    rewrite bind_ok, IH. cbn [fst snd map concat].
    now rewrite <- app_assoc.
Qed.

Lemma row_events_forward (n : Z) (r : state_row) :
  List.length (filter is_forward (row_events n r))
  = S (Z.to_nat vocab_size).
Proof.
  unfold row_events. cbn [filter is_forward].
  rewrite search_events_forward. simpl.
  now rewrite length_map, range_length.
Qed.

Lemma row_events_progress (n : Z) (r : state_row) :
  filter is_progress (row_events n r)
  = [PrintProgress (state_index r + 1) n (state_question r)].
Proof.
  unfold row_events. cbn [filter is_progress]. f_equal.
  generalize (@nil Z) as seen.
  induction (range vocab_size) as [|c cs IH]; intros seen; [reflexivity|].
  cbn [search_events]. destruct (py_in _ _).
  - cbn [filter is_progress]. apply IH.
  - rewrite filter_app. cbn. apply IH.
Qed.

(** X14. With [max_prompt_tokens = 1], over a vocabulary of at most 2^63
    tokens, on a collection whose [question_ids] cells are lists of at
    least one token id, the ids of 64 bits, the driver is the searches of
    the rows one after the other: its table is the tables of the rows in
    their order, and its events are, row by row, the progress line of the
    row followed by the events of the search of the row. *)
Theorem forward_generate_is_searches_in_order
    (unique_states : list state_row) :
  vocab_size <= 2 ^ 63 ->
  Forall holds_question unique_states ->
  forward_generate unique_states (Some 1)
  = (concat (map (row_events (len unique_states)) unique_states),
     inr (concat (map row_table unique_states)))
  /\ Forall (fun r =>
               get_reachable_set (token_list (row_token_ids r)) (Some 1)
               = (tl (row_events (len unique_states) r), inr (row_table r)))
            unique_states.
Proof.
  intros Hvocab Hrows. split.
  - unfold forward_generate. now rewrite generate_loop_closed_form.
  - rewrite Forall_forall in *. intros r Hr.
    destruct (Hrows r Hr) as (_ & Hne & H64).
    now apply get_reachable_set_closed_form.
Qed.

(** X15. On such a collection and vocabulary, with [max_prompt_tokens = 1],
    the driver runs the model once per row on
    the question alone and once per row and token of the vocabulary, and
    prints one progress line per row, in the order of the rows: the index
    label of the row plus one, the number of rows and the question text. *)
Theorem forward_generate_cost (unique_states : list state_row) :
  vocab_size <= 2 ^ 63 ->
  Forall holds_question unique_states ->
  List.length (filter is_forward
                 (trace (forward_generate unique_states (Some 1))))
  = (List.length unique_states * S (Z.to_nat vocab_size))%nat
  /\ filter is_progress (trace (forward_generate unique_states (Some 1)))
     = map (fun r => PrintProgress (state_index r + 1) (len unique_states)
                                   (state_question r))
           unique_states.
Proof.
  intros Hvocab Hrows. unfold forward_generate.
  rewrite generate_loop_closed_form by assumption.
  unfold trace. cbn [fst].
  generalize (len unique_states) as n. intros n. clear Hrows.
  induction unique_states as [|r rows IH]; [split; reflexivity|].
  destruct IH as (IH1 & IH2). cbn [map concat]. rewrite !filter_app.
  split.
  - rewrite length_app, row_events_forward, IH1. simpl. lia.
  - now rewrite row_events_progress, IH2.
Qed.

(** X16. Over a vocabulary of at most 2^63 tokens, on a collection that is
    not empty and whose [question_ids] cells are lists of at least one
    token id, the ids of 64 bits, the driver succeeds exactly when
    [max_prompt_tokens] is 1; with any other value, the default included, it
    prints the progress line of the first row and fails there with the
    not-implemented assertion, before any forward pass. *)
Theorem forward_generate_succeeds_iff (unique_states : list state_row)
    (max_prompt_tokens : option Z) :
  vocab_size <= 2 ^ 63 ->
  unique_states <> [] ->
  Forall holds_question unique_states ->
  ((exists tr df,
       forward_generate unique_states max_prompt_tokens = (tr, inr df))
   <-> max_prompt_tokens = Some 1)
  /\ (max_prompt_tokens <> Some 1 ->
      exists r,
        hd_error unique_states = Some r
        /\ forward_generate unique_states max_prompt_tokens
           = ([PrintProgress (state_index r + 1) (len unique_states)
                             (state_question r)],
              inl NotImplemented)).
Proof.
  intros Hvocab Hne Hrows.
  assert (Hfail : max_prompt_tokens <> Some 1 ->
            exists r,
              hd_error unique_states = Some r
              /\ forward_generate unique_states max_prompt_tokens
                 = ([PrintProgress (state_index r + 1) (len unique_states)
                                   (state_question r)],
                    inl NotImplemented)).
  { intros Hm. destruct unique_states as [|r rows]; [contradiction|].
    exists r. split; [reflexivity|].
    inversion Hrows as [|? ? (Hr & _) _]; subst.
    unfold forward_generate. cbn [for_each]. unfold generate_step at 1.
    rewrite Hr. unfold get_reachable_set.
    assert (E : (match max_prompt_tokens with
                 | Some m => m
                 | None => default_max_prompt_tokens
                 end =? 1) = false).
    { destruct max_prompt_tokens as [m|]; [|reflexivity].
      apply Z.eqb_neq. intros ->. now apply Hm. }
    rewrite E. reflexivity. }
  split; [|exact Hfail]. split.
  - intros (tr & df & Hrun).
    destruct max_prompt_tokens as [m|].
    + destruct (Z.eq_dec m 1) as [->|Hm]; [reflexivity|].
      destruct Hfail as (r & _ & Hf); [congruence|].
      rewrite Hf in Hrun. discriminate.
    + destruct Hfail as (r & _ & Hf); [discriminate|].
      rewrite Hf in Hrun. discriminate.
  - intros ->. eexists _, _. unfold forward_generate.
    now apply generate_loop_closed_form.
Qed.

End ForwardReach.

(** ** The code on the small model *)

Abbreviation stub_search :=
  (get_reachable_set (list Z) Z stub_model stub_argmax stub_cross_entropy
                     stub_decode stub_vocab_size).
Abbreviation stub_generate :=
  (forward_generate (list Z) Z stub_model stub_argmax stub_cross_entropy
                    stub_decode stub_vocab_size).
Abbreviation stub_generate_step :=
  (generate_step (list Z) Z stub_model stub_argmax stub_cross_entropy
                 stub_decode stub_vocab_size).
Abbreviation stub_answers := (_get_answer_ids (list Z) stub_model stub_argmax).
Abbreviation stub_batch := (_batch_get_answer_ids (list Z) stub_model stub_argmax).
Abbreviation stub_outcome := (outcome (list Z)).
Abbreviation stub_achievable :=
  (achievable (list Z) stub_model stub_argmax stub_vocab_size).

(** Closed side conditions on sizes: the ids of a list are of 64 bits, a
    number is below a bound. *)
Ltac closed_sizes :=
  repeat first
    [ apply Forall_nil
    | apply Forall_cons; [unfold in_int64; lia|]
    | progress unfold stub_vocab_size, float_exact_bound, len; simpl; lia ].

Lemma reachable_set_exact_witness :
  [1; 2] <> []
  /\ Forall in_int64 [1; 2]
  /\ stub_vocab_size <= 2 ^ 63
  /\ exists tr table,
      stub_search (token_list [1; 2]) (Some 1) = (tr, inr table)
      /\ forall a,
           (stub_achievable [1; 2] a -> count_answer Z a table = 1%nat)
           /\ (~ stub_achievable [1; 2] a -> count_answer Z a table = 0%nat).
Proof.
  split; [discriminate|]. split; [closed_sizes|]. split; [closed_sizes|].
  apply reachable_set_exact; [discriminate|closed_sizes|closed_sizes].
Defined.

Lemma reachable_set_answers_distinct_witness :
  [1; 2] <> []
  /\ Forall in_int64 [1; 2]
  /\ stub_vocab_size <= 2 ^ 63
  /\ exists tr table,
      stub_search (token_list [1; 2]) (Some 1) = (tr, inr table)
      /\ NoDup (answer_ids_column Z table)
      /\ List.length (filter (is_metric (list Z)) tr)
         = (2 * List.length table)%nat
      /\ List.length (filter (is_forward (list Z)) tr)
         = S (List.length (range stub_vocab_size)).
Proof.
  split; [discriminate|]. split; [closed_sizes|]. split; [closed_sizes|].
  destruct (reachable_set_answers_distinct (list Z) Z stub_model stub_argmax
              stub_cross_entropy stub_decode stub_vocab_size [1; 2])
    as (tr & table & Hrun & Hnd & _ & Hmet & Hfw);
    [discriminate|closed_sizes|closed_sizes|].
  now exists tr, table.
Defined.

Lemma reachable_set_in_discovery_order_witness :
  [1; 2] <> []
  /\ Forall in_int64 [1; 2]
  /\ stub_vocab_size <= 2 ^ 63
  /\ exists tr table idxs,
      stub_search (token_list [1; 2]) (Some 1) = (tr, inr table)
      /\ map (fun r => first_candidate (list Z) stub_model stub_argmax
                         stub_vocab_size [1; 2] (answer_ids Z r)) table
         = map Some idxs
      /\ StronglySorted Z.lt idxs.
Proof.
  split; [discriminate|]. split; [closed_sizes|]. split; [closed_sizes|].
  apply reachable_set_in_discovery_order;
    [discriminate|closed_sizes|closed_sizes].
Defined.

Lemma base_correct_marks_base_prediction_witness :
  [1; 2] <> []
  /\ Forall in_int64 [1; 2]
  /\ stub_vocab_size <= 2 ^ 63
  /\ exists tr table,
      stub_search (token_list [1; 2]) (Some 1) = (tr, inr table)
      /\ forall r, In r table ->
           (base_correct Z r = true
            <-> answer_ids Z r
                = base_prediction (list Z) stub_model stub_argmax [1; 2]).
Proof.
  split; [discriminate|]. split; [closed_sizes|]. split; [closed_sizes|].
  destruct (base_correct_marks_base_prediction (list Z) Z stub_model
              stub_argmax stub_cross_entropy stub_decode stub_vocab_size
              [1; 2])
    as (tr & table & Hrun & Hbc & _);
    [discriminate|closed_sizes|closed_sizes|].
  now exists tr, table.
Defined.

(** The failures of the search on the small model: a question of no token
    after its forward pass, an id of more than 64 bits before any. *)
Example stub_search_failures :
  stub_search (token_list []) (Some 1)
  = ([Forward (list Z) [[]]], inl IndexError)
  /\ stub_search (token_list [1; 2 ^ 63]) (Some 1) = ([], inl TensorError).
Proof. split; vm_compute; reflexivity. Qed.

(** The question [1; 2] on the small model: the prompts 0, 1 and 2 each
    find an answer, the prompt 3 finds the answer of the prompt 0 again. *)
Example stub_search_answers :
  option_map (map (answer_ids Z))
    (match stub_outcome (stub_search (token_list [1; 2]) (Some 1)) with
     | inr table => Some table
     | inl _ => None
     end)
  = Some [0; 1; 2].
Proof. vm_compute. reflexivity. Qed.

(** A model that always predicts token 7 reaches one answer, which is the
    base prediction. *)
Example const7_search :
  map (fun r => (answer_ids Z r, base_correct Z r, prompt_correct Z r))
    (match snd (get_reachable_set Z Z const7_model (fun l => l)
                  (fun l t => Z.abs (l - t)) stub_decode 5
                  (token_list [3; 1]) (Some 1)) with
     | inr table => table
     | inl _ => []
     end)
  = [(7, true, true)].
Proof. vm_compute. reflexivity. Qed.

Lemma get_reachable_set_requires_one_witness :
  Some 2 <> Some 1
  /\ stub_search (token_list [1; 2]) (Some 2) = ([], inl NotImplemented)
  /\ stub_search (token_list [1; 2]) None = ([], inl NotImplemented).
Proof.
  split; [discriminate|]. split.
  - apply (proj1 (get_reachable_set_requires_one (list Z) Z stub_model
                    stub_argmax stub_cross_entropy stub_decode stub_vocab_size
                    (token_list [1; 2]) (Some 2))).
    discriminate.
  - apply (proj1 (get_reachable_set_requires_one (list Z) Z stub_model
                    stub_argmax stub_cross_entropy stub_decode stub_vocab_size
                    (token_list [1; 2]) None)).
    discriminate.
Defined.



(** The chunked run on the small model, computed: three forward passes over
    two, two and one prompt rows, the answers in the order of the rows. *)
Example stub_batch_chunks :
  stub_batch [[0]; [1]; [2]; [3]; [1]] [[5; 6]] (Some 2)
  = ([Forward (list Z) [[0; 5; 6]; [1; 5; 6]];
      Forward (list Z) [[2; 5; 6]; [3; 5; 6]];
      Forward (list Z) [[1; 5; 6]]],
     inr [[2]; [0]; [1]; [2]; [0]]).
Proof. vm_compute. reflexivity. Qed.




(** Two rows with the same question: the driver returns the table of the
    question twice over, the answers 1, 2 and 0 once per question.  A second
    row holding the question as a string stops it with the type assertion
    after the events of the first row. *)
Lemma forward_generate_concatenates_witness :
  (exists table,
      stub_outcome (stub_search (token_list [1]) (Some 1)) = inr table
      /\ map (answer_ids Z) table = [1; 2; 0]
      /\ stub_outcome (stub_generate [list_row 0; list_row 1] (Some 1))
         = inr (concat [table; table]))
  /\ (exists tr df,
         for_each (list Z) [list_row 0] (stub_generate_step 2 (Some 1)) []
         = (tr, inr df)
         /\ stub_generate_step 2 (Some 1) (serialized_row 1) df
            = ([], inl TypeAssertion)
         /\ stub_generate [list_row 0; serialized_row 1] (Some 1)
            = (tr, inl TypeAssertion)).
Proof.
  split.
  - destruct (stub_search (token_list [1]) (Some 1)) as (tr & [e|table]) eqn:E;
      [vm_compute in E; discriminate|].
    exists table. split; [reflexivity|]. split.
    + vm_compute in E. injection E as _ <-. reflexivity.
    + apply (proj1 (forward_generate_concatenates (list Z) Z stub_model
                      stub_argmax stub_cross_entropy stub_decode
                      stub_vocab_size [list_row 0; list_row 1] (Some 1))).
      repeat constructor; exists (token_list [1]); split; try reflexivity;
        unfold outcome; now rewrite E.
  - eexists _, _. split; [vm_compute; reflexivity|].
    apply (proj2 (proj2 (forward_generate_concatenates (list Z) Z
                           stub_model stub_argmax stub_cross_entropy
                           stub_decode stub_vocab_size
                           [list_row 0; serialized_row 1] (Some 1)))
             [list_row 0] (serialized_row 1) [] _ _ eq_refl eq_refl).
    vm_compute. reflexivity.
Defined.

(** A cell holding a list whose element is a string passes the type
    assertion: the failure comes later and is another one. *)
Lemma forward_generate_unchecked_elements :
  type_is_list (state_question_ids (string_list_row 0)) = true
  /\ as_token_ids [PyStr "a"] = None
  /\ stub_generate [string_list_row 0] (Some 2)
     = ([PrintProgress (list Z) 1 1 "q"], inl NotImplemented)
  /\ stub_generate [string_list_row 0] (Some 1)
     = ([PrintProgress (list Z) 1 1 "q"], inl TensorError).
Proof. repeat split. Qed.

Lemma default_max_prompt_tokens_never_runs_witness :
  stub_search (token_list [1; 2]) None = ([], inl NotImplemented)
  /\ exists tr e,
      stub_generate
        [list_row 0] None
      = (tr, inl e)
      /\ (e = NotImplemented \/ e = TypeAssertion)
      /\ filter (is_forward (list Z)) tr = [].
Proof.
  split.
  - apply (proj1 (proj2 (default_max_prompt_tokens_never_runs (list Z) Z
                           stub_model stub_argmax stub_cross_entropy
                           stub_decode stub_vocab_size))).
  - apply (proj2 (proj2 (default_max_prompt_tokens_never_runs (list Z) Z
                           stub_model stub_argmax stub_cross_entropy
                           stub_decode stub_vocab_size))).
    discriminate.
Defined.

(** ** The further properties on the small model *)

Abbreviation stub_prediction := (prediction (list Z) stub_model stub_argmax).
Abbreviation stub_trace := (trace (list Z)).
Abbreviation stub_row :=
  (discovered_row (list Z) Z stub_model stub_argmax stub_cross_entropy
                  stub_decode).
Abbreviation stub_fresh :=
  (fresh_candidates (list Z) stub_model stub_argmax).

Lemma get_reachable_set_is_first_occurrences_witness :
  [1; 2] <> []
  /\ Forall in_int64 [1; 2]
  /\ stub_vocab_size <= 2 ^ 63
  /\ stub_search (token_list [1; 2]) (Some 1)
     = (Forward (list Z) [[1; 2]]
        :: search_events (list Z) stub_model stub_argmax stub_decode
                         [1; 2] [] (range stub_vocab_size),
        inr (map (stub_row [1; 2])
                 (stub_fresh [1; 2] [] (range stub_vocab_size))))
  /\ stub_fresh [1; 2] [] (range stub_vocab_size) = [0; 1; 2].
Proof.
  split; [discriminate|]. split; [closed_sizes|]. split; [closed_sizes|].
  split; [|vm_compute; reflexivity].
  apply (proj1 (get_reachable_set_is_first_occurrences (list Z) Z stub_model
                  stub_argmax stub_cross_entropy stub_decode stub_vocab_size
                  [1; 2] ltac:(discriminate) ltac:(closed_sizes)
                  ltac:(closed_sizes))).
Defined.

Lemma reachable_set_row_constants_witness :
  [1; 2] <> []
  /\ Forall in_int64 [1; 2]
  /\ stub_vocab_size <= 2 ^ 63
  /\ exists tr table,
      stub_search (token_list [1; 2]) (Some 1) = (tr, inr table)
      /\ Forall (fun r =>
                   prompt_correct Z r = true
                   /\ prompt_length Z r = 1
                   /\ question_length Z r = len [1; 2]
                   /\ search_method Z r = "forward"%string
                   /\ question_ids Z r = [1; 2]
                   /\ question Z r = stub_decode [1; 2]) table.
Proof.
  split; [discriminate|]. split; [closed_sizes|]. split; [closed_sizes|].
  apply reachable_set_row_constants;
    [discriminate|closed_sizes|closed_sizes].
Defined.

Lemma reachable_set_row_metrics_witness :
  [1; 2] <> []
  /\ Forall in_int64 [1; 2]
  /\ stub_vocab_size <= 2 ^ 63
  /\ exists tr table,
      stub_search (token_list [1; 2]) (Some 1) = (tr, inr table)
      /\ forall r, In r table ->
           exists i,
             first_candidate (list Z) stub_model stub_argmax stub_vocab_size
                             [1; 2] (answer_ids Z r) = Some i
             /\ stub_prediction [1; 2] i = answer_ids Z r
             /\ answer Z r = stub_decode [answer_ids Z r]
             /\ base_loss Z r
                = stub_cross_entropy (stub_model [1; 2]) (answer_ids Z r)
             /\ prompted_loss Z r
                = stub_cross_entropy (stub_model ([i] ++ [1; 2]))
                                     (answer_ids Z r).
Proof.
  split; [discriminate|]. split; [closed_sizes|]. split; [closed_sizes|].
  apply reachable_set_row_metrics;
    [discriminate|closed_sizes|closed_sizes].
Defined.

Lemma get_reachable_set_forward_passes_witness :
  [1; 2] <> []
  /\ Forall in_int64 [1; 2]
  /\ stub_vocab_size <= 2 ^ 63
  /\ exists tr table,
      stub_search (token_list [1; 2]) (Some 1) = (tr, inr table)
      /\ filter (is_forward (list Z)) tr
         = Forward (list Z) [[1; 2]]
           :: map (fun i => Forward (list Z) [[i] ++ [1; 2]])
                  (range stub_vocab_size).
Proof.
  split; [discriminate|]. split; [closed_sizes|]. split; [closed_sizes|].
  apply get_reachable_set_forward_passes;
    [discriminate|closed_sizes|closed_sizes].
Defined.

Lemma get_reachable_set_prints_discoveries_witness :
  [1; 2] <> []
  /\ Forall in_int64 [1; 2]
  /\ stub_vocab_size <= 2 ^ 63
  /\ exists tr table prompts,
      stub_search (token_list [1; 2]) (Some 1) = (tr, inr table)
      /\ table = map (stub_row [1; 2]) prompts
      /\ filter (is_found (list Z)) tr
         = map (fun i => PrintFound (list Z) i (answer Z (stub_row [1; 2] i)))
               prompts.
Proof.
  split; [discriminate|]. split; [closed_sizes|]. split; [closed_sizes|].
  apply get_reachable_set_prints_discoveries;
    [discriminate|closed_sizes|closed_sizes].
Defined.

Lemma reachable_set_size_witness :
  [1; 2] <> []
  /\ Forall in_int64 [1; 2]
  /\ stub_vocab_size <= 2 ^ 63
  /\ exists tr table,
      stub_search (token_list [1; 2]) (Some 1) = (tr, inr table)
      /\ (List.length table <= Z.to_nat stub_vocab_size)%nat
      /\ hd_error table = Some (stub_row [1; 2] 0).
Proof.
  split; [discriminate|]. split; [closed_sizes|]. split; [closed_sizes|].
  destruct (reachable_set_size (list Z) Z stub_model stub_argmax
              stub_cross_entropy stub_decode stub_vocab_size [1; 2])
    as (tr & table & Hrun & Hlen & _ & Hhd);
    [discriminate|closed_sizes|closed_sizes|].
  exists tr, table. split; [exact Hrun|]. split; [exact Hlen|].
  apply Hhd. reflexivity.
Defined.

Lemma brute_force_batch_matches_search_witness :
  [1; 2] <> []
  /\ Forall in_int64 [1; 2]
  /\ stub_vocab_size < float_exact_bound
  /\ 0 < 2 < float_exact_bound
  /\ exists prompt_ids tr out tr' table,
      _get_prompt_ids_brute_force (list Z) stub_vocab_size
      = ([], inr prompt_ids)
      /\ prompt_ids = map (fun i => [i]) (range stub_vocab_size)
      /\ stub_batch prompt_ids [[1; 2]] (Some 2) = (tr, inr out)
      /\ out = map (fun i => [stub_prediction [1; 2] i])
                  (range stub_vocab_size)
      /\ stub_search (token_list [1; 2]) (Some 1) = (tr', inr table)
      /\ answer_ids_column Z table = first_occurrences [] (concat out).
Proof.
  split; [discriminate|]. split; [closed_sizes|]. split; [closed_sizes|].
  split; [closed_sizes|].
  apply brute_force_batch_matches_search;
    [discriminate|closed_sizes|closed_sizes|closed_sizes].
Defined.

(** The answers of the four prompts of the small vocabulary against the
    question [1; 2], and their first occurrences. *)
Example stub_brute_force_answers :
  stub_outcome (stub_batch [[0]; [1]; [2]; [3]] [[1; 2]] (Some 3))
  = inr [[0]; [1]; [2]; [0]]
  /\ first_occurrences [] [0; 1; 2; 0] = [0; 1; 2].
Proof. split; vm_compute; reflexivity. Qed.

Lemma batch_get_answer_ids_nonpositive_chunk_witness :
  -1 <= 0
  /\ stub_batch [[0]; [1]] [[5]] (Some (-1)) = ([], inr [[0]; [0]]).
Proof.
  split; [discriminate|].
  destruct (batch_get_answer_ids_nonpositive_chunk (list Z) stub_model
              stub_argmax [[0]; [1]] [[5]] (-1) ltac:(discriminate))
    as (r & Hrun & _ & Hneg).
  rewrite Hrun, (Hneg eq_refl). reflexivity.
Defined.





Lemma list_rows_hold_questions :
  Forall holds_question [list_row 0; list_row 1].
Proof.
  repeat constructor; try discriminate; unfold in_int64; simpl; lia.
Qed.

Lemma forward_generate_is_searches_in_order_witness :
  stub_vocab_size <= 2 ^ 63
  /\ Forall holds_question [list_row 0; list_row 1]
  /\ stub_generate [list_row 0; list_row 1] (Some 1)
     = (concat (map (row_events (list Z) stub_model stub_argmax stub_decode
                                stub_vocab_size 2)
                    [list_row 0; list_row 1]),
        inr (concat (map (row_table (list Z) Z stub_model stub_argmax
                                    stub_cross_entropy stub_decode
                                    stub_vocab_size)
                         [list_row 0; list_row 1]))).
Proof.
  split; [closed_sizes|]. split; [exact list_rows_hold_questions|].
  apply (proj1 (forward_generate_is_searches_in_order (list Z) Z stub_model
                  stub_argmax stub_cross_entropy stub_decode stub_vocab_size
                  [list_row 0; list_row 1] ltac:(closed_sizes)
                  list_rows_hold_questions)).
Defined.

Lemma forward_generate_cost_witness :
  stub_vocab_size <= 2 ^ 63
  /\ Forall holds_question [list_row 0; list_row 1]
  /\ List.length (filter (is_forward (list Z))
                    (stub_trace (stub_generate [list_row 0; list_row 1]
                                               (Some 1))))
     = 10%nat
  /\ filter (is_progress (list Z))
       (stub_trace (stub_generate [list_row 0; list_row 1] (Some 1)))
     = [PrintProgress (list Z) 1 2 "b"; PrintProgress (list Z) 2 2 "b"].
Proof.
  split; [closed_sizes|]. split; [exact list_rows_hold_questions|].
  apply (forward_generate_cost (list Z) Z stub_model stub_argmax
           stub_cross_entropy stub_decode stub_vocab_size
           [list_row 0; list_row 1] ltac:(closed_sizes)
           list_rows_hold_questions).
Defined.

Lemma forward_generate_succeeds_iff_witness :
  stub_vocab_size <= 2 ^ 63
  /\ [list_row 0; list_row 1] <> []
  /\ Forall holds_question [list_row 0; list_row 1]
  /\ (exists tr df,
         stub_generate [list_row 0; list_row 1] (Some 1) = (tr, inr df))
  /\ Some 2 <> Some 1
  /\ exists r,
      hd_error [list_row 0; list_row 1] = Some r
      /\ stub_generate [list_row 0; list_row 1] (Some 2)
         = ([PrintProgress (list Z) (state_index r + 1)
                           (len [list_row 0; list_row 1])
                           (state_question r)],
            inl NotImplemented).
Proof.
  split; [closed_sizes|]. split; [discriminate|].
  split; [exact list_rows_hold_questions|]. split; [|split; [discriminate|]].
  - apply (proj2 (proj1 (forward_generate_succeeds_iff (list Z) Z stub_model
                    stub_argmax stub_cross_entropy stub_decode stub_vocab_size
                    [list_row 0; list_row 1] (Some 1) ltac:(closed_sizes)
                    ltac:(discriminate) list_rows_hold_questions))).
    reflexivity.
  - apply (proj2 (forward_generate_succeeds_iff (list Z) Z stub_model
                    stub_argmax stub_cross_entropy stub_decode stub_vocab_size
                    [list_row 0; list_row 1] (Some 2) ltac:(closed_sizes)
                    ltac:(discriminate) list_rows_hold_questions)).
    discriminate.
Defined.
